(** * The model layer of the todo list (src/app.js, sections 1 and 2)

    A shallow embedding of [trimTitle] and of the [model] object: its state,
    [load], [save], the six mutations and the three derived queries, run
    against an explicit local storage.  JavaScript values are embedded as far
    as the model layer inspects them. *)

From Stdlib Require Import List ZArith NArith Bool Lia String Ascii.
From Stdlib Require Import DecimalString.
From Stdlib Require Import Permutation Sorted.
Import ListNotations.

Local Open Scope Z_scope.

(** ** Strings

    A JavaScript string is a sequence of UTF-16 code units and [length]
    counts code units. *)

Definition code_unit := N.
Definition jsstring := list code_unit.

Definition lit (s : string) : jsstring :=
  List.map N_of_ascii (list_ascii_of_string s).

Fixpoint str_eqb (a b : jsstring) : bool :=
  match a, b with
  | [], [] => true
  | x :: a', y :: b' => N.eqb x y && str_eqb a' b'
  | _, _ => false
  end.

(** [String.prototype.trim] strips WhiteSpace and LineTerminator code
    points (ECMA-262, StrWhiteSpaceChar). *)
Definition is_white (c : code_unit) : bool :=
  ((9 <=? c) && (c <=? 13) ||
   (c =? 32) || (c =? 160) || (c =? 5760) ||
   ((8192 <=? c) && (c <=? 8202)) ||
   (c =? 8232) || (c =? 8233) || (c =? 8239) || (c =? 8287) ||
   (c =? 12288) || (c =? 65279))%N.

Fixpoint drop_white (s : jsstring) : jsstring :=
  match s with
  | [] => []
  | c :: s' => if is_white c then drop_white s' else s
  end.

Definition trim (s : jsstring) : jsstring :=
  rev (drop_white (rev (drop_white s))).

(** A string that does not start with white space. *)
Definition starts_black (s : jsstring) : Prop :=
  match s with
  | [] => True
  | c :: _ => is_white c = false
  end.

(** A string that does not end in white space. *)
Definition ends_black (s : jsstring) : Prop := starts_black (rev s).

(** ** Values

    What [JSON.parse] can return, plus [undefined] (an absent property, a
    missing argument).  Numbers are the integers: [Date.now()] yields whole
    milliseconds; fractions, NaN and infinities are not embedded.  An object
    is its own properties in property order, keys distinct. *)

#[local] Set Warnings "-register-all".

Inductive value : Type :=
| VUndef
| VNull
| VBool (b : bool)
| VNum (n : Z)
| VStr (s : jsstring)
| VArr (elems : list value)
| VObj (props : list (jsstring * value)).

Definition obj := list (jsstring * value).

(** [typeof v === 'string'] *)
Definition is_string (v : value) : bool :=
  match v with VStr _ => true | _ => false end.

(** ToBoolean, as used by [!v], [v && ...], [v || ...] and [if (v)]. *)
Definition truthy (v : value) : bool :=
  match v with
  | VUndef | VNull => false
  | VBool b => b
  | VNum n => negb (n =? 0)
  | VStr s => match s with [] => false | _ => true end
  | VArr _ | VObj _ => true
  end.

(** [o.k] on an object: the property's value, [undefined] when absent. *)
Fixpoint prop_get (o : obj) (k : jsstring) : value :=
  match o with
  | [] => VUndef
  | (k', v) :: o' => if str_eqb k' k then v else prop_get o' k
  end.

(** [{ ...o, k: v }]: the copy keeps [o]'s property order; an existing [k]
    is overwritten in place, a new one is added last. *)
Fixpoint prop_set (k : jsstring) (v : value) (o : obj) : obj :=
  match o with
  | [] => [(k, v)]
  | (k', v') :: o' =>
      if str_eqb k' k then (k, v) :: o' else (k', v') :: prop_set k v o'
  end.

(** [v.k] for any non-nullish value: strings, numbers, booleans and arrays
    from [JSON.parse] have none of the properties the model reads. *)
Definition member (v : value) (k : jsstring) : value :=
  match v with
  | VObj o => prop_get o k
  | _ => VUndef
  end.

(** ** Section 1 of app.js: constants and utilities *)

Definition STORAGE_KEY : jsstring := lit "todos".
Definition FILTER_KEY : jsstring := lit "currentFilter".

Definition k_id : jsstring := lit "id".
Definition k_title : jsstring := lit "title".
Definition k_completed : jsstring := lit "completed".
Definition k_createdAt : jsstring := lit "createdAt".

Definition f_all : jsstring := lit "all".
Definition f_active : jsstring := lit "active".
Definition f_completed : jsstring := lit "completed".

(** [typeof title === 'string' ? title.trim() : ''] *)
Definition trimTitle (title : value) : jsstring :=
  match title with
  | VStr s => trim s
  | _ => []
  end.

(** [['all', 'active', 'completed'].includes(x)] for a string [x]. *)
Definition valid_filter (f : jsstring) : bool :=
  str_eqb f_all f || str_eqb f_active f || str_eqb f_completed f.

(** ** The model's state, local storage and the effects of a call *)

(** [model.state]: [{ todos: Array<Object>, currentFilter: string }]. *)
Record state : Type := mkState {
  todos : list obj;
  currentFilter : jsstring
}.

(** The object literal [model.state] starts as (app.js lines 49-52). *)
Definition initial_state : state :=
  {| todos := []; currentFilter := f_all |}.

(** Every call the model makes on [localStorage], in the order made. *)
Inductive event : Type :=
| EvGetItem (key : jsstring)
| EvSetItem (key text : jsstring).

Record world : Type := mkWorld {
  st : state;                               (* model.state *)
  disk : list (jsstring * jsstring);        (* localStorage, latest first *)
  trace : list event                        (* storage calls, latest first *)
}.

(** The page as it starts: the default state over whatever is stored. *)
Definition boot (stored : list (jsstring * jsstring)) : world :=
  {| st := initial_state; disk := stored; trace := [] |}.

Inductive exn : Type :=
| SyntaxError            (* JSON.parse *)
| QuotaExceededError     (* localStorage.setItem *)
| TypeError              (* a value that cannot be converted to a primitive *)
| SecurityError.         (* a storage the page may not use *)

Inductive completion (A : Type) : Type :=
| Normal (a : A)
| Throw (e : exn).
Arguments Normal {A} a.
Arguments Throw {A} e.

(** A computation reads and changes the world and completes normally or
    abruptly; changes made before a throw stay made. *)
Definition M (A : Type) : Type := world -> completion A * world.

Definition ret {A} (a : A) : M A := fun w => (Normal a, w).

Definition bind {A B} (m : M A) (k : A -> M B) : M B :=
  fun w =>
    match m w with
    | (Normal a, w') => k a w'
    | (Throw e, w') => (Throw e, w')
    end.

Definition throw {A} (e : exn) : M A := fun w => (Throw e, w).

(** A step that does not touch the world. *)
Definition lift {A} (c : completion A) : M A := fun w => (c, w).

(** [try { m } catch (e) { h }] *)
Definition try_catch {A} (m : M A) (h : exn -> M A) : M A :=
  fun w =>
    match m w with
    | (Normal a, w') => (Normal a, w')
    | (Throw e, w') => h e w'
    end.

Declare Scope js_scope.
Delimit Scope js_scope with js.
Notation "x <- m ;; k" := (bind m (fun x => k))
  (at level 61, m at next level, right associativity) : js_scope.
Notation "m ;;; k" := (bind m (fun _ => k))
  (at level 61, right associativity) : js_scope.
Local Open Scope js_scope.

Definition get_state : M state := fun w => (Normal (st w), w).

(** [this.state = s] *)
Definition set_state (s : state) : M unit :=
  fun w => (Normal tt, {| st := s; disk := disk w; trace := trace w |}).

(** [this.state.todos = l] *)
Definition set_todos (l : list obj) : M unit :=
  fun w => (Normal tt,
            {| st := {| todos := l; currentFilter := currentFilter (st w) |};
               disk := disk w; trace := trace w |}).

(** [this.state.currentFilter = f] *)
Definition set_currentFilter (f : jsstring) : M unit :=
  fun w => (Normal tt,
            {| st := {| todos := todos (st w); currentFilter := f |};
               disk := disk w; trace := trace w |}).

Fixpoint lookup (k : jsstring) (d : list (jsstring * jsstring))
  : option jsstring :=
  match d with
  | [] => None
  | (k', v) :: d' => if str_eqb k' k then Some v else lookup k d'
  end.

(** A read of the storage, as [load] makes two. *)
Definition reader : Type := jsstring -> M (option jsstring).

(** [localStorage.getItem(k)] on a storage the page may use: the stored
    text, [None] for [null].  This is the read of every world below;
    [load_from] takes the read as an argument and so covers the others. *)
Definition getItem : reader :=
  fun k w => (Normal (lookup k (disk w)),
              {| st := st w; disk := disk w;
                 trace := EvGetItem k :: trace w |}).

(** [localStorage.getItem(k)] on a storage the page may not use. *)
Definition getItem_denied : reader :=
  fun k w => (Throw SecurityError,
              {| st := st w; disk := disk w;
                 trace := EvGetItem k :: trace w |}).

(** ** Array helpers *)

(** [a.findIndex(p)]: the first index whose element passes, [None] for -1. *)
Fixpoint findIndex {A} (p : A -> bool) (l : list A) : option nat :=
  match l with
  | [] => None
  | x :: l' =>
      if p x then Some O
      else match findIndex p l' with
           | Some i => Some (S i)
           | None => None
           end
  end.

(** ** What the model layer takes from the browser *)

Class Host : Type := {
  (** [JSON.parse]: [None] when it throws a SyntaxError. *)
  JSON_parse : jsstring -> option value;
  (** [JSON.stringify] of the todos array. *)
  JSON_stringify : list obj -> jsstring;
  (** Whether [localStorage.setItem(key, text)] goes through on the given
      stored content; when not, it throws (quota exceeded, storage
      unavailable) and stores nothing. *)
  storage_accepts : list (jsstring * jsstring) -> jsstring -> jsstring -> bool;
  (** StringToNumber (ECMA-262 7.1.4.1.1): the number a text reads as,
      [None] for NaN.  Numbers are the integers here, as in [VNum]. *)
  StringToNumber : jsstring -> option Z;
  (** The order [Array.prototype.sort] leaves the elements in when the
      comparator is not consistent: ECMA-262 leaves it to the engine.  The
      elements are the ones given. *)
  engine_order : list obj -> list obj;
  engine_order_perm : forall l, Permutation (engine_order l) l
}.

(** ** Conversions (ECMA-262 7.1) *)

(** A step that completes normally or throws, without touching the
    world. *)
Definition and_then {A B} (c : completion A) (k : A -> completion B)
  : completion B :=
  match c with
  | Normal a => k a
  | Throw e => Throw e
  end.

(** Whether the object has an own property [k]. *)
Fixpoint prop_has (o : obj) (k : jsstring) : bool :=
  match o with
  | [] => false
  | (k', _) :: o' => str_eqb k' k || prop_has o' k
  end.

(** Number::toString of an integer: its decimal digits (below 10^21,
    where the exponent form starts). *)
Definition number_text (n : Z) : jsstring :=
  lit (NilZero.string_of_int (Z.to_int n)).

(** OrdinaryToPrimitive of an object that [JSON.parse] built.  No own
    property of such an object is callable, so an own [toString] hides
    [Object.prototype.toString] and leaves nothing to call: a TypeError.
    Without it [Object.prototype.toString] answers; [valueOf], own or
    inherited, never yields a primitive. *)
Definition object_text (o : obj) : completion jsstring :=
  if prop_has o (lit "toString") then Throw TypeError
  else Normal (lit "[object Object]").

(** ToString.  An array reads as [join(',')] of its elements, [null] and
    [undefined] elements as the empty text. *)
Fixpoint to_text (v : value) : completion jsstring :=
  match v with
  | VUndef => Normal (lit "undefined")
  | VNull => Normal (lit "null")
  | VBool b => Normal (if b then lit "true" else lit "false")
  | VNum n => Normal (number_text n)
  | VStr s => Normal s
  | VArr elems =>
      (fix join (l : list value) : completion jsstring :=
         match l with
         | [] => Normal []
         | x :: l' =>
             and_then
               (match x with
                | VUndef | VNull => Normal []
                | _ => to_text x
                end)
               (fun first =>
                  match l' with
                  | [] => Normal first
                  | _ =>
                      and_then (join l')
                        (fun rest => Normal (first ++ lit "," ++ rest))
                  end)
         end) elems
  | VObj o => object_text o
  end.

(** [Array.prototype.sort(comparefn)] for a comparator that subtracts a
    number read off each element, which is how [load] calls it.

    With fewer than two elements the comparator is not called.  With two
    or more, every element takes part in some comparison before the sort
    can finish, so a comparison that throws for an element makes the sort
    throw.  A NaN comparison ([None]) counts as +0 (SortCompare); next to
    elements of different numbers it makes the comparator inconsistent,
    and the order is then the engine's: [inconsistent_order] stands for
    it, and may be any order of the elements, the stable one included.
    Without NaN the sort is stable: the run below is insertion from the
    right, which gives the one stable order. *)
Section Sort.
Context {A : Type} (comparefn : A -> A -> completion (option Z)).
Context (inconsistent_order : list A -> list A).

(** SortCompare gives a number that is not positive. *)
Definition not_after (x y : A) : bool :=
  match comparefn x y with
  | Normal (Some d) => d <=? 0
  | Normal None => true
  | Throw _ => false
  end.

(** The list with [x] put in, and whether a NaN was met. *)
Fixpoint insert (x : A) (l : list A) : completion (list A * bool) :=
  match l with
  | [] => Normal ([x], false)
  | y :: l' =>
      and_then (comparefn x y)
        (fun v =>
           match v with
           | None => Normal (x :: l, true)
           | Some d =>
               if d <=? 0 then Normal (x :: l, false)
               else and_then (insert x l')
                      (fun r => Normal (y :: fst r, snd r))
           end)
  end.

Fixpoint sort_run (l : list A) : completion (list A * bool) :=
  match l with
  | [] => Normal ([], false)
  | x :: l' =>
      and_then (sort_run l')
        (fun r =>
           and_then (insert x (fst r))
             (fun r' => Normal (fst r', snd r || snd r')))
  end.

Definition sort (l : list A) : completion (list A) :=
  and_then (sort_run l)
    (fun r => Normal (if snd r then inconsistent_order l else fst r)).
End Sort.

(** [v || 0] *)
Definition or_zero (v : value) : value :=
  if truthy v then v else VNum 0.

(** ToNumber of an operand of [-]; [None] is NaN.  Text goes through
    StringToNumber; an array or object is first made a primitive, which is
    its text. *)
Definition to_number {host : Host} (v : value) : completion (option Z) :=
  match v with
  | VUndef => Normal None
  | VNull => Normal (Some 0)
  | VBool b => Normal (Some (if b then 1 else 0))
  | VNum n => Normal (Some n)
  | VStr s => Normal (StringToNumber s)
  | VArr _ => and_then (to_text v) (fun s => Normal (StringToNumber s))
  | VObj o => and_then (object_text o) (fun _ => Normal None)
  end.

(** [(a, b) => (b.createdAt || 0) - (a.createdAt || 0)]: the left operand
    is converted first, then the right one; NaN on either side gives NaN. *)
Definition by_createdAt {host : Host} (a b : obj) : completion (option Z) :=
  and_then (to_number (or_zero (prop_get b k_createdAt)))
    (fun x =>
       and_then (to_number (or_zero (prop_get a k_createdAt)))
         (fun y =>
            Normal (match x, y with
                    | Some x, Some y => Some (x - y)
                    | _, _ => None
                    end))).

(** [(t) => t && typeof t.id === 'string' && typeof t.title === 'string'] *)
Definition well_shaped (t : value) : bool :=
  truthy t && is_string (member t k_id) && is_string (member t k_title).

(** The elements that pass [well_shaped] are objects. *)
Definition as_obj (t : value) : obj :=
  match t with
  | VObj o => o
  | _ => []
  end.

Definition survivors (parsed : list value) : list obj :=
  List.map as_obj (List.filter well_shaped parsed).

(** [t.id === id] for a string [id]. *)
Definition has_id (id : jsstring) (t : obj) : bool :=
  match prop_get t k_id with
  | VStr s => str_eqb s id
  | _ => false
  end.

(** ** Calls on the model

    What a caller can ask of the model, and what the call evaluates to. *)

Inductive call : Type :=
| Load
| AddTodo (uuid : jsstring) (now : Z) (title : value)
| ToggleTodo (id : jsstring)
| DeleteTodo (id : jsstring)
| EditTodo (id : jsstring) (newTitle : value)
| SetFilter (filterType : value)
| ClearCompleted
| GetActiveCount
| GetCompletedCount
| GetFilteredTodos.

Inductive outcome : Type :=
| Rejected                      (* null *)
| NewState (s : state)          (* the new state object *)
| Undefined                     (* load returns nothing *)
| Count (n : nat)
| Items (l : list obj).

Definition of_result (r : option state) : outcome :=
  match r with
  | Some s => NewState s
  | None => Rejected
  end.

(** The item's completed flag as the model reads it: every read of
    [t.completed] in app.js is in boolean position. *)
Definition completed_flag (t : obj) : bool := truthy (prop_get t k_completed).

(** A title the model itself would accept: a string, not empty after
    trimming, at most 500 code units. *)
Definition title_okb (t : obj) : bool :=
  match prop_get t k_title with
  | VStr s =>
      match trim s with [] => false | _ => true end
      && (List.length s <=? 500)%nat
  | _ => false
  end.

Definition titles_ok (s : state) : Prop :=
  Forall (fun t => title_okb t = true) (todos s).

(** The sort key of [by_createdAt] where [createdAt] is a number or is
    absent ([createdAt || 0]). *)
Definition createdAt_key (t : obj) : option Z :=
  match prop_get t k_createdAt with
  | VNum n => Some n
  | VUndef | VNull => Some 0
  | _ => None
  end.

(** An item whose [createdAt] is a number or is absent. *)
Definition dated (t : obj) : Prop := createdAt_key t <> None.

Definition key_of (t : obj) : Z :=
  match createdAt_key t with Some n => n | None => 0 end.

(** [a] may come before [b] in a list that is newest first. *)
Definition newer_or_same (a b : obj) : Prop := key_of b <= key_of a.

(** ** Section 2 of app.js: the model *)

Section Model.

Context {host : Host}.

Definition parse (text : jsstring) : M value :=
  match JSON_parse text with
  | Some v => ret v
  | None => throw SyntaxError
  end.

Definition setItem (k text : jsstring) : M unit :=
  fun w =>
    let tr := EvSetItem k text :: trace w in
    if storage_accepts (disk w) k text
    then (Normal tt, {| st := st w; disk := (k, text) :: disk w; trace := tr |})
    else (Throw QuotaExceededError,
          {| st := st w; disk := disk w; trace := tr |}).

(** [model.load] (lines 57-81), with [read] for [localStorage.getItem] *)
Definition load_from (read : reader) : M unit :=
  try_catch
    (todosJson <- read STORAGE_KEY ;;
     filter <- read FILTER_KEY ;;
     (match todosJson with
      | Some ((_ :: _) as text) =>                  (* if (todosJson) *)
          parsed <- parse text ;;
          match parsed with
          | VArr elems =>                           (* Array.isArray *)
              sorted <- lift (sort by_createdAt engine_order
                                (survivors elems)) ;;
              set_todos sorted
          | _ => ret tt
          end
      | _ => ret tt
      end) ;;;
     match filter with
     | Some ((_ :: _) as f) =>                      (* filter && ... *)
         if valid_filter f then set_currentFilter f else ret tt
     | _ => ret tt
     end)
    (fun _ =>
       (* Corrupted data: start fresh *)
       set_todos [] ;;; set_currentFilter f_all).

Definition load : M unit := load_from getItem.

(** [model.save] (lines 87-95) *)
Definition save (newState : state) : M unit :=
  set_state newState ;;;
  try_catch
    (setItem STORAGE_KEY (JSON_stringify (todos newState)) ;;;
     setItem FILTER_KEY (currentFilter newState))
    (fun _ =>
       (* Storage full or unavailable: state still updated in memory *)
       ret tt).

(** [model.addTodo] (lines 102-119).  [uuid] and [now] are what
    [generateId()] and [Date.now()] return to this call. *)
Definition addTodo (uuid : jsstring) (now : Z) (title : value)
  : M (option state) :=
  let trimmed := trimTitle title in
  if negb (truthy (VStr trimmed)) || (500 <? Z.of_nat (List.length trimmed))
  then ret None
  else
    let todo : obj :=
      [ (k_id, VStr uuid);
        (k_title, VStr trimmed);
        (k_completed, VBool false);
        (k_createdAt, VNum now) ] in
    s <- get_state ;;
    let newState :=
      {| todos := todo :: todos s; currentFilter := currentFilter s |} in
    save newState ;;;
    ret (Some newState).

(** [model.toggleTodo] (lines 126-137) *)
Definition toggleTodo (id : jsstring) : M (option state) :=
  s <- get_state ;;
  match findIndex (has_id id) (todos s) with
  | None => ret None
  | Some _ =>
      let newTodos :=
        List.map
          (fun t =>
             if has_id id t
             then prop_set k_completed
                    (VBool (negb (truthy (prop_get t k_completed)))) t
             else t)
          (todos s) in
      let newState :=
        {| todos := newTodos; currentFilter := currentFilter s |} in
      save newState ;;;
      ret (Some newState)
  end.

(** [model.deleteTodo] (lines 144-152) *)
Definition deleteTodo (id : jsstring) : M (option state) :=
  s <- get_state ;;
  match findIndex (has_id id) (todos s) with
  | None => ret None
  | Some _ =>
      let newTodos := List.filter (fun t => negb (has_id id t)) (todos s) in
      let newState :=
        {| todos := newTodos; currentFilter := currentFilter s |} in
      save newState ;;;
      ret (Some newState)
  end.

(** [model.editTodo] (lines 160-174) *)
Definition editTodo (id : jsstring) (newTitle : value) : M (option state) :=
  let trimmed := trimTitle newTitle in
  if negb (truthy (VStr trimmed)) || (500 <? Z.of_nat (List.length trimmed))
  then ret None
  else
    s <- get_state ;;
    match findIndex (has_id id) (todos s) with
    | None => ret None
    | Some _ =>
        let newTodos :=
          List.map
            (fun t =>
               if has_id id t then prop_set k_title (VStr trimmed) t else t)
            (todos s) in
        let newState :=
          {| todos := newTodos; currentFilter := currentFilter s |} in
        save newState ;;;
        ret (Some newState)
    end.

(** [model.setFilter] (lines 181-187).  [includes] compares with
    SameValueZero, so it finds no argument that is not a string. *)
Definition setFilter (filterType : value) : M (option state) :=
  match filterType with
  | VStr f =>
      if negb (valid_filter f) then ret None
      else
        s <- get_state ;;
        let newState := {| todos := todos s; currentFilter := f |} in
        save newState ;;;
        ret (Some newState)
  | _ => ret None                      (* includes() finds no non-string *)
  end.

(** [model.clearCompleted] (lines 193-198) *)
Definition clearCompleted : M state :=
  s <- get_state ;;
  let newTodos :=
    List.filter (fun t => negb (truthy (prop_get t k_completed))) (todos s) in
  let newState :=
    {| todos := newTodos; currentFilter := currentFilter s |} in
  save newState ;;;
  ret newState.

(** [model.getActiveCount] (lines 204-206) *)
Definition getActiveCount (s : state) : nat :=
  List.length
    (List.filter (fun t => negb (truthy (prop_get t k_completed))) (todos s)).

(** [model.getCompletedCount] (lines 212-214) *)
Definition getCompletedCount (s : state) : nat :=
  List.length (List.filter (fun t => truthy (prop_get t k_completed)) (todos s)).

(** [model.getFilteredTodos] (lines 220-230) *)
Definition getFilteredTodos (s : state) : list obj :=
  if str_eqb (currentFilter s) f_active
  then List.filter (fun t => negb (truthy (prop_get t k_completed))) (todos s)
  else if str_eqb (currentFilter s) f_completed
  then List.filter (fun t => truthy (prop_get t k_completed)) (todos s)
  else todos s.

(** One call, start to finish. *)
Definition run (c : call) : M outcome :=
  match c with
  | Load => load ;;; ret Undefined
  | AddTodo uuid now title =>
      r <- addTodo uuid now title ;; ret (of_result r)
  | ToggleTodo id => r <- toggleTodo id ;; ret (of_result r)
  | DeleteTodo id => r <- deleteTodo id ;; ret (of_result r)
  | EditTodo id newTitle => r <- editTodo id newTitle ;; ret (of_result r)
  | SetFilter filterType => r <- setFilter filterType ;; ret (of_result r)
  | ClearCompleted => s <- clearCompleted ;; ret (NewState s)
  | GetActiveCount => s <- get_state ;; ret (Count (getActiveCount s))
  | GetCompletedCount => s <- get_state ;; ret (Count (getCompletedCount s))
  | GetFilteredTodos => s <- get_state ;; ret (Items (getFilteredTodos s))
  end.

Definition step (c : call) (w : world) : world := snd (run c w).

(** The worlds a page can be in: booted over any stored content, then
    any calls. *)
Inductive reachable : world -> Prop :=
| reach_boot : forall stored, reachable (boot stored)
| reach_step : forall c w, reachable w -> reachable (step c w).

(** What is stored under the todos key, if it parses as an array, holds
    only acceptable titles among the records [load] keeps. *)
Definition stored_titles_ok (w : world) : Prop :=
  forall text elems,
    lookup STORAGE_KEY (disk w) = Some text ->
    JSON_parse text = Some (VArr elems) ->
    Forall (fun t => title_okb t = true) (survivors elems).

(** Reachable when [load] only ever meets such stored content. *)
Inductive reachable_clean : world -> Prop :=
| clean_boot : forall stored, reachable_clean (boot stored)
| clean_load : forall w,
    reachable_clean w -> stored_titles_ok w ->
    reachable_clean (step Load w)
| clean_step : forall c w,
    reachable_clean w -> c <> Load -> reachable_clean (step c w).

(** The write of [save newState] fails at [w]: the first [setItem] is
    refused, or the second one is. *)
Definition write_fails (w : world) (newState : state) : Prop :=
  let text := JSON_stringify (todos newState) in
  storage_accepts (disk w) STORAGE_KEY text = false \/
  storage_accepts ((STORAGE_KEY, text) :: disk w)
    FILTER_KEY (currentFilter newState) = false.

(** The world [load] leaves behind. *)
Definition loaded (w : world) : world := snd (load w).

(** The filter [load] ends with when nothing throws. *)
Definition adopted_filter (w : world) : jsstring :=
  match lookup FILTER_KEY (disk w) with
  | Some f => if valid_filter f then f else currentFilter (st w)
  | None => currentFilter (st w)
  end.

(** The world [save] leaves behind. *)
Definition saved (newState : state) (w : world) : world :=
  snd (save newState w).

(** The title test of [addTodo] and [editTodo]. *)
Definition title_refused (title : value) : bool :=
  negb (truthy (VStr (trimTitle title)))
  || (500 <? Z.of_nat (List.length (trimTitle title))).

(** The state [addTodo] builds. *)
Definition added (uuid : jsstring) (now : Z) (title : value) (s : state)
  : state :=
  {| todos :=
       [ (k_id, VStr uuid); (k_title, VStr (trimTitle title));
         (k_completed, VBool false); (k_createdAt, VNum now) ] :: todos s;
     currentFilter := currentFilter s |}.

End Model.

(** ** Concrete surroundings for examples *)

(** A JSON string literal: the text between two quotation marks. *)
Definition quoted (s : string) : jsstring := (34%N :: lit s) ++ [34%N].

(** A parser known only on the listed texts; every other text, the empty
    one included, is a SyntaxError. *)
Definition parse_table (tbl : list (jsstring * value)) (text : jsstring)
  : option value :=
  match text with
  | [] => None
  | _ =>
      (fix find (tbl : list (jsstring * value)) : option value :=
         match tbl with
         | [] => None
         | (k, v) :: tbl' => if str_eqb k text then Some v else find tbl'
         end) tbl
  end.

Definition sample_stringify (l : list obj) : jsstring := lit "[]".

(** StringToNumber on the texts of the examples: the empty text reads as
    0, a text of decimal digits as the number it spells, a text with a
    letter as NaN.  Texts with a sign, blanks, a point, an exponent or a
    radix prefix, which this would take for NaN as well, do not occur in
    them. *)
Fixpoint digits_value (acc : Z) (s : jsstring) : option Z :=
  match s with
  | [] => Some acc
  | c :: s' =>
      if ((48 <=? c) && (c <=? 57))%N
      then digits_value (10 * acc + Z.of_N (c - 48)) s'
      else None
  end.

Definition digits_number (s : jsstring) : option Z := digits_value 0 s.

Definition storage_ok (d : list (jsstring * jsstring)) (k v : jsstring)
  : bool := true.

Definition storage_full (d : list (jsstring * jsstring)) (k v : jsstring)
  : bool := false.

(** The JSON text of an array of one record, with id a and an empty
    title, and the record it parses to. *)
Definition blank_title_text : jsstring :=
  lit "[{" ++ quoted "id" ++ lit ":" ++ quoted "a" ++ lit ","
    ++ quoted "title" ++ lit ":" ++ quoted EmptyString ++ lit "}]".

Definition blank_title_record : obj :=
  [ (k_id, VStr (lit "a")); (k_title, VStr []) ].

(** A browser that knows the texts of [tbl] and whose storage works. *)
Definition host_of (tbl : list (jsstring * value)) : Host :=
  {| JSON_parse := parse_table tbl;
     JSON_stringify := sample_stringify;
     storage_accepts := storage_ok;
     StringToNumber := digits_number;
     engine_order := fun l => l;
     engine_order_perm := fun l => Permutation_refl l |}.

(** The same host with another storage behaviour. *)
Definition with_storage (host : Host)
  (accepts : list (jsstring * jsstring) -> jsstring -> jsstring -> bool)
  : Host :=
  {| JSON_parse := @JSON_parse host;
     JSON_stringify := @JSON_stringify host;
     storage_accepts := accepts;
     StringToNumber := @StringToNumber host;
     engine_order := @engine_order host;
     engine_order_perm := @engine_order_perm host |}.

(** A browser that knows no JSON text at all, over a working storage and
    over one that refuses every write. *)
Definition plain_host : Host := host_of [].
Definition full_host : Host := with_storage plain_host storage_full.

(** An item as [addTodo] lays it out. *)
Definition item (id title : string) (completed : bool) (createdAt : Z) : obj :=
  [ (k_id, VStr (lit id)); (k_title, VStr (lit title));
    (k_completed, VBool completed); (k_createdAt, VNum createdAt) ].

Definition item_text (id title createdAt : string) : jsstring :=
  lit "{" ++ quoted "id" ++ lit ":" ++ quoted id ++ lit ","
    ++ quoted "title" ++ lit ":" ++ quoted title ++ lit ","
    ++ quoted "completed" ++ lit ":false,"
    ++ quoted "createdAt" ++ lit ":" ++ lit createdAt ++ lit "}".

(** The stored data of the test 'model.load: sorts todos by createdAt
    descending'. *)
Definition three_records : list value :=
  [ VObj (item "a" "Old" false 1000);
    VObj (item "b" "New" false 2000);
    VObj (item "c" "Mid" false 1500) ].

Definition three_text : jsstring :=
  lit "[" ++ item_text "a" "Old" "1000" ++ lit ","
    ++ item_text "b" "New" "2000" ++ lit ","
    ++ item_text "c" "Mid" "1500" ++ lit "]".

Definition three_host : Host := host_of [ (three_text, VArr three_records) ].

Definition three_stored : list (jsstring * jsstring) :=
  [ (FILTER_KEY, f_completed); (STORAGE_KEY, three_text) ].

(** The stored data behind a blank title. *)
Definition blank_title_host : Host :=
  host_of [ (blank_title_text, VArr [VObj blank_title_record]) ].

Definition blank_title_stored : list (jsstring * jsstring) :=
  [ (STORAGE_KEY, blank_title_text) ].

(** The stored data of the test 'model.load: handles corrupt JSON
    gracefully', with a valid filter next to it. *)
Definition corrupt_stored : list (jsstring * jsstring) :=
  [ (FILTER_KEY, f_completed); (STORAGE_KEY, lit "not valid json{{{") ].

(** An empty text under the todos key, with a valid filter next to it. *)
Definition empty_text_stored : list (jsstring * jsstring) :=
  [ (FILTER_KEY, f_completed); (STORAGE_KEY, []) ].

(** A world holding one open item. *)
Definition one_item_world : world :=
  {| st := {| todos := [item "a" "Buy milk" false 1000];
              currentFilter := f_all |};
     disk := [];
     trace := [] |}.

(** A title of [n] letters 'a' between blanks. *)
Definition padded_title (n : nat) : value :=
  VStr ((32%N :: repeat 97%N n) ++ [32%N]).

(** [one_item_world]'s state with the item done. *)
Definition one_item_done : state :=
  {| todos := [item "a" "Buy milk" true 1000]; currentFilter := f_all |}.

(** ** Section 3 of app.js: the actions

    Each action calls the model and, when the model hands back a state
    object, calls [renderState].  [renderState] only reads the model and
    writes to the DOM; of the DOM the embedding keeps how many times it was
    rendered. *)

Record page : Type := mkPage {
  model_world : world;
  renders : nat
}.

Definition renderState (p : page) : page :=
  {| model_world := model_world p; renders := S (renders p) |}.

Module actions.

(** [const newState = m; if (newState) { renderState(); return yes; }
    return no;] for a model call [m] that returns an object or [null]. *)
Definition dispatch {A} (m : M (option state)) (yes no : A) (p : page)
  : completion A * page :=
  match m (model_world p) with
  | (Normal (Some _), w') =>
      (Normal yes, renderState {| model_world := w'; renders := renders p |})
  | (Normal None, w') =>
      (Normal no, {| model_world := w'; renders := renders p |})
  | (Throw e, w') =>
      (Throw e, {| model_world := w'; renders := renders p |})
  end.

(** [actions.addTodo] (lines 247-254) *)
Definition addTodo {host : Host} (uuid : jsstring) (now : Z) (title : value)
  : page -> completion bool * page :=
  dispatch (addTodo uuid now title) true false.

(** [actions.toggleTodo] (lines 260-263) *)
Definition toggleTodo {host : Host} (id : jsstring)
  : page -> completion unit * page :=
  dispatch (toggleTodo id) tt tt.

(** [actions.deleteTodo] (lines 269-272) *)
Definition deleteTodo {host : Host} (id : jsstring)
  : page -> completion unit * page :=
  dispatch (deleteTodo id) tt tt.

(** [actions.editTodo] (lines 279-282) *)
Definition editTodo {host : Host} (id : jsstring) (newTitle : value)
  : page -> completion unit * page :=
  dispatch (editTodo id newTitle) tt tt.

(** [actions.setFilter] (lines 288-291) *)
Definition setFilter {host : Host} (filterType : value)
  : page -> completion unit * page :=
  dispatch (setFilter filterType) tt tt.

(** [actions.clearCompleted] (lines 296-299): renders whatever the model
    returned. *)
Definition clearCompleted {host : Host} (p : page)
  : completion unit * page :=
  match clearCompleted (model_world p) with
  | (Normal _, w') =>
      (Normal tt, renderState {| model_world := w'; renders := renders p |})
  | (Throw e, w') =>
      (Throw e, {| model_world := w'; renders := renders p |})
  end.

End actions.

(** What a user can trigger, and the action it reaches. *)
Inductive intent : Type :=
| Submit (uuid : jsstring) (now : Z) (title : value)
| Toggle (id : jsstring)
| Delete (id : jsstring)
| Edit (id : jsstring) (newTitle : value)
| Filter (filterType : value)
| Clear.

Definition call_of (i : intent) : call :=
  match i with
  | Submit uuid now title => AddTodo uuid now title
  | Toggle id => ToggleTodo id
  | Delete id => DeleteTodo id
  | Edit id newTitle => EditTodo id newTitle
  | Filter filterType => SetFilter filterType
  | Clear => ClearCompleted
  end.

(** The page after the action for [i]. *)
Definition act {host : Host} (i : intent) (p : page) : page :=
  match i with
  | Submit uuid now title => snd (actions.addTodo uuid now title p)
  | Toggle id => snd (actions.toggleTodo id p)
  | Delete id => snd (actions.deleteTodo id p)
  | Edit id newTitle => snd (actions.editTodo id newTitle p)
  | Filter filterType => snd (actions.setFilter filterType p)
  | Clear => snd (actions.clearCompleted p)
  end.

(** ** Vocabulary for the further properties *)

(** A record [load] would keep: string id, string title. *)
Definition shaped (t : obj) : bool :=
  is_string (prop_get t k_id) && is_string (prop_get t k_title).

(** Every item is shaped and the filter is one of the three. *)
Definition shape_ok (s : state) : Prop :=
  Forall (fun t => shaped t = true) (todos s)
  /\ valid_filter (currentFilter s) = true.

(** The ids of the collection, in order. *)
Definition ids (s : state) : list value :=
  List.map (fun t => prop_get t k_id) (todos s).

(** The id a call brings in, if it brings one, is not in the collection. *)
Definition brings_fresh_id (c : call) (s : state) : Prop :=
  match c with
  | AddTodo uuid _ _ => ~ In (VStr uuid) (ids s)
  | _ => True
  end.

(** The clock reading a call brings in, if it brings one, is not behind
    the [createdAt] of any item held. *)
Definition clock_not_behind (c : call) (s : state) : Prop :=
  match c with
  | AddTodo _ now _ => forall t, In t (todos s) -> key_of t <= now
  | _ => True
  end.

(** The number the comparator reads off an item: [createdAt || 0],
    converted. *)
Definition numeric_key {host : Host} (t : obj) : completion (option Z) :=
  to_number (or_zero (prop_get t k_createdAt)).

(** The conversion gives a number. *)
Definition converts {host : Host} (t : obj) : Prop :=
  exists z, numeric_key t = Normal (Some z).

(** That number (0 where there is none). *)
Definition createdAt_number {host : Host} (t : obj) : Z :=
  match numeric_key t with
  | Normal (Some z) => z
  | _ => 0
  end.

(** The conversion does not throw. *)
Definition faultless {host : Host} (t : obj) : Prop :=
  forall e, numeric_key t <> Throw e.

(** [a] may come before [b] when sorted by that number, largest first. *)
Definition larger_or_same {host : Host} (a b : obj) : Prop :=
  createdAt_number b <= createdAt_number a.

(** The storage call is a read. *)
Definition is_read (e : event) : bool :=
  match e with
  | EvGetItem _ => true
  | EvSetItem _ _ => false
  end.

(** Whatever [read] returns or throws, it leaves memory and the stored
    content alone and is recorded as a read of its key. *)
Definition reads_only (read : reader) : Prop :=
  forall k w,
    snd (read k w)
    = {| st := st w; disk := disk w; trace := EvGetItem k :: trace w |}.

(** [read] throws on the todos key in [w]. *)
Definition read_throws (read : reader) (w : world) : Prop :=
  exists e, fst (read STORAGE_KEY w) = Throw e.

(** [read] never throws. *)
Definition read_returns (read : reader) : Prop :=
  forall k w, exists v, fst (read k w) = Normal v.

(** The items whose sort key is [k], in order. *)
Definition with_key (k : Z) (l : list obj) : list obj :=
  List.filter (fun t => key_of t =? k) l.

(** No item would be moved by the comparator past the one before it. *)
Definition newest_first {host : Host} (l : list obj) : Prop :=
  Sorted (fun a b => not_after by_createdAt a b = true) l.

(** A browser whose [JSON.stringify] gives the text of [three_records] for
    a non-empty collection. *)
Definition three_stringify (l : list obj) : jsstring :=
  match l with
  | [] => lit "[]"
  | _ => three_text
  end.

Definition three_round_host : Host :=
  {| JSON_parse := parse_table [ (three_text, VArr three_records) ];
     JSON_stringify := three_stringify;
     storage_accepts := storage_ok;
     StringToNumber := digits_number;
     engine_order := fun l => l;
     engine_order_perm := fun l => Permutation_refl l |}.

(** The three records as a state, newest first or as stored. *)
Definition three_state : state :=
  {| todos := List.map as_obj three_records; currentFilter := f_active |}.

(** Two items, the second one done. *)
Definition two_item_world : world :=
  {| st := {| todos := [ item "b" "Walk dog" false 2000;
                         item "a" "Buy milk" true 1000 ];
              currentFilter := f_completed |};
     disk := [];
     trace := [] |}.

(** A storage that takes the todos and nothing else. *)
Definition storage_todos_only (d : list (jsstring * jsstring))
  (k v : jsstring) : bool := str_eqb k STORAGE_KEY.

Definition todos_only_host : Host :=
  with_storage plain_host storage_todos_only.

(** Valid JSON that is not an array, stored under the todos key. *)
Definition object_host : Host := host_of [ (lit "{}", VObj []) ].

Definition object_stored : list (jsstring * jsstring) :=
  [ (FILTER_KEY, f_active); (STORAGE_KEY, lit "{}") ].

(** Three stored records, the first and the last created at the same
    moment. *)
Definition tie_records : list value :=
  [ VObj (item "a" "First" false 1000);
    VObj (item "b" "Later" false 2000);
    VObj (item "c" "Second" false 1000) ].

Definition tie_text : jsstring :=
  lit "[" ++ item_text "a" "First" "1000" ++ lit ","
    ++ item_text "b" "Later" "2000" ++ lit ","
    ++ item_text "c" "Second" "1000" ++ lit "]".

Definition tie_host : Host := host_of [ (tie_text, VArr tie_records) ].

Definition tie_world : world :=
  {| st := initial_state; disk := [ (STORAGE_KEY, tie_text) ]; trace := [] |}.

(** A page over [two_item_world], not yet rendered. *)
Definition two_item_page : page :=
  {| model_world := two_item_world; renders := 0 |}.

(** A world holding one record as [load] may keep it: a string id, a
    string title, nothing else. *)
Definition bare_record : obj :=
  [ (k_id, VStr (lit "a")); (k_title, VStr (lit "Buy milk")) ].

Definition bare_text : jsstring :=
  lit "[{" ++ quoted "id" ++ lit ":" ++ quoted "a" ++ lit ","
    ++ quoted "title" ++ lit ":" ++ quoted "Buy milk" ++ lit "}]".

Definition bare_host : Host := host_of [ (bare_text, VArr [VObj bare_record]) ].

Definition bare_stored : list (jsstring * jsstring) :=
  [ (STORAGE_KEY, bare_text) ].

(** The same record after two toggles. *)
Definition bare_record_toggled : obj :=
  [ (k_id, VStr (lit "a")); (k_title, VStr (lit "Buy milk"));
    (k_completed, VBool false) ].

(** Two stored records with a string id and a string title whose
    [createdAt] is an object with a property [toString] of its own, next to
    a valid filter. *)
Definition faulty_record (id title : string) : obj :=
  [ (k_id, VStr (lit id)); (k_title, VStr (lit title));
    (k_createdAt, VObj [ (lit "toString", VNum 1) ]) ].

Definition faulty_record_text (id title : string) : jsstring :=
  lit "{" ++ quoted "id" ++ lit ":" ++ quoted id ++ lit ","
    ++ quoted "title" ++ lit ":" ++ quoted title ++ lit ","
    ++ quoted "createdAt" ++ lit ":{" ++ quoted "toString" ++ lit ":1}}".

Definition faulty_records : list value :=
  [ VObj (faulty_record "a" "Buy milk"); VObj (faulty_record "b" "Walk dog") ].

Definition faulty_text : jsstring :=
  lit "[" ++ faulty_record_text "a" "Buy milk" ++ lit ","
    ++ faulty_record_text "b" "Walk dog" ++ lit "]".

Definition faulty_host : Host := host_of [ (faulty_text, VArr faulty_records) ].

Definition faulty_stored : list (jsstring * jsstring) :=
  [ (FILTER_KEY, f_completed); (STORAGE_KEY, faulty_text) ].

(** Three stored records, the middle one with a [createdAt] that is a text
    and not a number. *)
Definition undated_record : obj :=
  [ (k_id, VStr (lit "b")); (k_title, VStr (lit "Mid"));
    (k_completed, VBool false); (k_createdAt, VStr (lit "soon")) ].

Definition undated_records : list value :=
  [ VObj (item "a" "Old" false 1000);
    VObj undated_record;
    VObj (item "c" "New" false 2000) ].

Definition undated_text : jsstring :=
  lit "[" ++ item_text "a" "Old" "1000" ++ lit ","
    ++ lit "{" ++ quoted "id" ++ lit ":" ++ quoted "b" ++ lit ","
    ++ quoted "title" ++ lit ":" ++ quoted "Mid" ++ lit ","
    ++ quoted "completed" ++ lit ":false,"
    ++ quoted "createdAt" ++ lit ":" ++ quoted "soon" ++ lit "},"
    ++ item_text "c" "New" "2000" ++ lit "]".

Definition undated_host : Host :=
  host_of [ (undated_text, VArr undated_records) ].

Definition undated_stored : list (jsstring * jsstring) :=
  [ (STORAGE_KEY, undated_text) ].

(** Three stored records whose [createdAt] are texts of digits. *)
Definition digits_record (id title createdAt : string) : obj :=
  [ (k_id, VStr (lit id)); (k_title, VStr (lit title));
    (k_completed, VBool false); (k_createdAt, VStr (lit createdAt)) ].

Definition digits_record_text (id title createdAt : string) : jsstring :=
  lit "{" ++ quoted "id" ++ lit ":" ++ quoted id ++ lit ","
    ++ quoted "title" ++ lit ":" ++ quoted title ++ lit ","
    ++ quoted "completed" ++ lit ":false,"
    ++ quoted "createdAt" ++ lit ":" ++ quoted createdAt ++ lit "}".

Definition digits_records : list value :=
  [ VObj (digits_record "a" "Old" "1000");
    VObj (digits_record "b" "New" "2000");
    VObj (digits_record "c" "Mid" "1500") ].

Definition digits_text : jsstring :=
  lit "[" ++ digits_record_text "a" "Old" "1000" ++ lit ","
    ++ digits_record_text "b" "New" "2000" ++ lit ","
    ++ digits_record_text "c" "Mid" "1500" ++ lit "]".

Definition digits_host : Host :=
  host_of [ (digits_text, VArr digits_records) ].

Definition digits_stored : list (jsstring * jsstring) :=
  [ (FILTER_KEY, f_active); (STORAGE_KEY, digits_text) ].

(** * Facts *)

Arguments lit : simpl never.
Arguments valid_filter : simpl never.
Arguments sort : simpl never.
Arguments by_createdAt : simpl never.
Arguments to_number : simpl never.
Arguments has_id : simpl never.
Arguments trim : simpl never.

(** ** Strings and trimming *)

Lemma str_eqb_eq (a b : jsstring) : str_eqb a b = true <-> a = b.
Proof.
  revert b; induction a as [|x a IH]; intros [|y b]; simpl;
    try (split; [discriminate | discriminate]); try tauto.
  rewrite andb_true_iff, N.eqb_eq, IH.
  split; [intros [-> ->]; reflexivity | intros E; injection E; auto].
Qed.

Lemma str_eqb_refl (a : jsstring) : str_eqb a a = true.
Proof. apply str_eqb_eq; reflexivity. Qed.

Arguments str_eqb : simpl never.

Lemma drop_white_black (s : jsstring) : starts_black (drop_white s).
Proof.
  induction s as [|c s IH]; simpl; [exact I|].
  destruct (is_white c) eqn:E; [exact IH | exact E].
Qed.

Lemma drop_white_fix (s : jsstring) : starts_black s -> drop_white s = s.
Proof.
  destruct s as [|c s]; simpl; [reflexivity|].
  intros ->; reflexivity.
Qed.

Lemma drop_white_suffix (s : jsstring) :
  exists p, s = p ++ drop_white s.
Proof.
  induction s as [|c s [p IH]]; simpl.
  - exists []; reflexivity.
  - destruct (is_white c).
    + exists (c :: p); simpl; rewrite <- IH; reflexivity.
    + exists []; reflexivity.
Qed.

Lemma drop_white_length (s : jsstring) :
  (List.length (drop_white s) <= List.length s)%nat.
Proof.
  destruct (drop_white_suffix s) as [p E].
  rewrite E at 2; rewrite length_app; lia.
Qed.

Lemma drop_white_keeps_end (s : jsstring) :
  ends_black s -> ends_black (drop_white s).
Proof.
  unfold ends_black; intros H.
  destruct (drop_white_suffix s) as [p E].
  destruct (drop_white s) as [|c r] eqn:D; [exact I|].
  rewrite E, rev_app_distr in H.
  destruct (rev (c :: r)) as [|d r'] eqn:R.
  - apply (f_equal (@List.length _)) in R; rewrite length_rev in R.
    simpl in R; discriminate.
  - simpl in H; exact H.
Qed.

Lemma trim_length (s : jsstring) :
  (List.length (trim s) <= List.length s)%nat.
Proof.
  unfold trim; rewrite length_rev.
  etransitivity; [apply drop_white_length|].
  rewrite length_rev; apply drop_white_length.
Qed.

Lemma trim_fix (s : jsstring) :
  starts_black s -> ends_black s -> trim s = s.
Proof.
  unfold trim, ends_black; intros Hs He.
  rewrite (drop_white_fix s Hs), (drop_white_fix (rev s) He).
  apply rev_involutive.
Qed.

Lemma trim_black (s : jsstring) :
  starts_black (trim s) /\ ends_black (trim s).
Proof.
  unfold trim, ends_black; split.
  - apply (drop_white_keeps_end (rev (drop_white s))).
    unfold ends_black; rewrite rev_involutive; apply drop_white_black.
  - rewrite rev_involutive; apply drop_white_black.
Qed.

Lemma trim_idempotent (s : jsstring) : trim (trim s) = trim s.
Proof. destruct (trim_black s); apply trim_fix; assumption. Qed.

(** ** The operations, as equations *)

Section Equations.
Context {host : Host}.

Ltac run_save :=
  unfold saved, save, bind, try_catch, set_state, setItem, ret; simpl;
  destruct (storage_accepts _ _ _); simpl;
  [destruct (storage_accepts _ _ _); simpl|].

Lemma save_eq (ns : state) (w : world) :
  save ns w = (Normal tt, saved ns w).
Proof. run_save; reflexivity. Qed.

Lemma saved_st (ns : state) (w : world) : st (saved ns w) = ns.
Proof. run_save; reflexivity. Qed.

(** [save] always attempts the first write. *)
Lemma saved_trace (ns : state) (w : world) :
  exists later,
    trace (saved ns w) =
    later ++ EvSetItem STORAGE_KEY (JSON_stringify (todos ns)) :: trace w.
Proof.
  run_save.
  - exists [EvSetItem FILTER_KEY (currentFilter ns)]; reflexivity.
  - exists [EvSetItem FILTER_KEY (currentFilter ns)]; reflexivity.
  - exists []; reflexivity.
Qed.

Lemma saved_neq (ns : state) (w : world) : saved ns w <> w.
Proof.
  intros E. destruct (saved_trace ns w) as [later T].
  rewrite E in T. apply (f_equal (@List.length _)) in T.
  rewrite length_app in T; simpl in T; lia.
Qed.

Lemma addTodo_eq uuid now title w :
  addTodo uuid now title w =
  if title_refused title then (Normal None, w)
  else (Normal (Some (added uuid now title (st w))),
        saved (added uuid now title (st w)) w).
Proof.
  unfold addTodo, title_refused.
  destruct (_ || _); [reflexivity|].
  unfold bind, get_state, ret. rewrite save_eq. reflexivity.
Qed.

(** The states the other mutations build. *)
Lemma toggleTodo_eq id w :
  toggleTodo id w =
  match findIndex (has_id id) (todos (st w)) with
  | None => (Normal None, w)
  | Some _ =>
      let ns := {| todos :=
                     List.map
                       (fun t =>
                          if has_id id t
                          then prop_set k_completed
                                 (VBool (negb (completed_flag t))) t
                          else t) (todos (st w));
                   currentFilter := currentFilter (st w) |} in
      (Normal (Some ns), saved ns w)
  end.
Proof.
  unfold toggleTodo, bind, get_state; simpl.
  destruct (findIndex _ _); [|reflexivity].
  unfold bind, ret. rewrite save_eq. reflexivity.
Qed.

Lemma deleteTodo_eq id w :
  deleteTodo id w =
  match findIndex (has_id id) (todos (st w)) with
  | None => (Normal None, w)
  | Some _ =>
      let ns := {| todos :=
                     List.filter (fun t => negb (has_id id t)) (todos (st w));
                   currentFilter := currentFilter (st w) |} in
      (Normal (Some ns), saved ns w)
  end.
Proof.
  unfold deleteTodo, bind, get_state; simpl.
  destruct (findIndex _ _); [|reflexivity].
  unfold bind, ret. rewrite save_eq. reflexivity.
Qed.

Lemma editTodo_eq id newTitle w :
  editTodo id newTitle w =
  if title_refused newTitle then (Normal None, w)
  else
    match findIndex (has_id id) (todos (st w)) with
    | None => (Normal None, w)
    | Some _ =>
        let ns := {| todos :=
                       List.map
                         (fun t =>
                            if has_id id t
                            then prop_set k_title (VStr (trimTitle newTitle)) t
                            else t) (todos (st w));
                     currentFilter := currentFilter (st w) |} in
        (Normal (Some ns), saved ns w)
    end.
Proof.
  unfold editTodo, title_refused.
  destruct (_ || _); [reflexivity|].
  unfold bind, get_state; simpl.
  destruct (findIndex _ _); [|reflexivity].
  unfold bind, ret. rewrite save_eq. reflexivity.
Qed.

Lemma setFilter_eq filterType w :
  setFilter filterType w =
  match filterType with
  | VStr f =>
      if valid_filter f
      then let ns := {| todos := todos (st w); currentFilter := f |} in
           (Normal (Some ns), saved ns w)
      else (Normal None, w)
  | _ => (Normal None, w)
  end.
Proof.
  unfold setFilter.
  destruct filterType; try reflexivity.
  destruct (valid_filter s); simpl; [|reflexivity].
  unfold bind, get_state, ret; simpl. rewrite save_eq. reflexivity.
Qed.

Lemma clearCompleted_eq w :
  clearCompleted w =
  let ns := {| todos :=
                 List.filter (fun t => negb (completed_flag t)) (todos (st w));
               currentFilter := currentFilter (st w) |} in
  (Normal ns, saved ns w).
Proof.
  unfold clearCompleted, bind, get_state, ret; simpl.
  rewrite save_eq. reflexivity.
Qed.

(** What [load] leaves in memory, by what it finds stored. *)

Ltac run_load :=
  unfold loaded, load, load_from, try_catch, bind, getItem, parse, ret,
    throw, lift, set_todos, set_currentFilter; simpl.

Lemma load_normal (w : world) : exists w', load w = (Normal tt, w').
Proof.
  run_load.
  destruct (lookup STORAGE_KEY (disk w)) as [[|c text]|]; simpl.
  2: destruct (JSON_parse (c :: text)) as [[| | | | |elems|]|]; simpl;
       try destruct (sort by_createdAt engine_order (survivors elems)); simpl.
  all: destruct (lookup FILTER_KEY (disk w)) as [[|d f]|]; simpl;
    try destruct (valid_filter (d :: f)); simpl; eexists; reflexivity.
Qed.

Lemma load_eq (w : world) : load w = (Normal tt, loaded w).
Proof.
  unfold loaded; destruct (load_normal w) as [w' E]; rewrite E; reflexivity.
Qed.

Lemma load_absent (w : world) :
  lookup STORAGE_KEY (disk w) = None \/ lookup STORAGE_KEY (disk w) = Some [] ->
  st (loaded w) =
  {| todos := todos (st w); currentFilter := adopted_filter w |}.
Proof.
  unfold adopted_filter; intros [E|E]; run_load; rewrite E; simpl.
  all: destruct (lookup FILTER_KEY (disk w)) as [[|d f]|]; simpl;
    try destruct (valid_filter (d :: f)); simpl;
    destruct (st w); reflexivity.
Qed.

Lemma load_unparseable (w : world) (text : jsstring) :
  lookup STORAGE_KEY (disk w) = Some text ->
  text <> [] ->
  JSON_parse text = None ->
  st (loaded w) = initial_state.
Proof.
  intros E Hne P; run_load; rewrite E.
  destruct text as [|c text]; [contradiction|].
  simpl; rewrite P; reflexivity.
Qed.

(** The stored array's records could be sorted. *)
Lemma load_array (w : world) (text : jsstring) (elems : list value)
    (sorted : list obj) :
  lookup STORAGE_KEY (disk w) = Some text ->
  text <> [] ->
  JSON_parse text = Some (VArr elems) ->
  sort by_createdAt engine_order (survivors elems) = Normal sorted ->
  st (loaded w) =
  {| todos := sorted; currentFilter := adopted_filter w |}.
Proof.
  unfold adopted_filter; intros E Hne P S; run_load; rewrite E.
  destruct text as [|c text]; [contradiction|].
  simpl; rewrite P; simpl. rewrite S; simpl.
  destruct (lookup FILTER_KEY (disk w)) as [[|d f]|]; simpl;
    try destruct (valid_filter (d :: f)); reflexivity.
Qed.

(** The comparator threw while they were sorted. *)
Lemma load_array_throws (w : world) (text : jsstring) (elems : list value)
    (e : exn) :
  lookup STORAGE_KEY (disk w) = Some text ->
  text <> [] ->
  JSON_parse text = Some (VArr elems) ->
  sort by_createdAt engine_order (survivors elems) = Throw e ->
  st (loaded w) = initial_state.
Proof.
  intros E Hne P S; run_load; rewrite E.
  destruct text as [|c text]; [contradiction|].
  simpl; rewrite P; simpl. rewrite S; reflexivity.
Qed.

Lemma load_not_array (w : world) (text : jsstring) (v : value) :
  lookup STORAGE_KEY (disk w) = Some text ->
  text <> [] ->
  JSON_parse text = Some v ->
  (forall elems, v <> VArr elems) ->
  st (loaded w) =
  {| todos := todos (st w); currentFilter := adopted_filter w |}.
Proof.
  unfold adopted_filter; intros E Hne P Hv; run_load; rewrite E.
  destruct text as [|c text]; [contradiction|].
  simpl; rewrite P.
  destruct v; try (exfalso; eapply Hv; reflexivity); simpl.
  all: destruct (lookup FILTER_KEY (disk w)) as [[|d f]|]; simpl;
    try destruct (valid_filter (d :: f)); simpl;
    destruct (st w); reflexivity.
Qed.

End Equations.

(** ** Sorting *)

Section SortFacts.
Context {A : Type} (comparefn : A -> A -> completion (option Z)).
Context (inconsistent_order : list A -> list A).

Lemma insert_perm (x : A) (l : list A) (r : list A * bool) :
  insert comparefn x l = Normal r -> Permutation (fst r) (x :: l).
Proof.
  revert r; induction l as [|y l IH]; cbn; intros r H.
  - injection H as <-; reflexivity.
  - destruct (comparefn x y) as [[d|]|e]; cbn in H; try discriminate.
    + destruct (d <=? 0); [injection H as <-; reflexivity|].
      destruct (insert comparefn x l) as [r'|e]; cbn in H; [|discriminate].
      injection H as <-; cbn.
      rewrite (IH r' eq_refl); apply perm_swap.
    + injection H as <-; reflexivity.
Qed.

Lemma sort_run_perm (l : list A) (r : list A * bool) :
  sort_run comparefn l = Normal r -> Permutation (fst r) l.
Proof.
  revert r; induction l as [|x l IH]; cbn; intros r H.
  - injection H as <-; reflexivity.
  - destruct (sort_run comparefn l) as [r1|e]; cbn in H; [|discriminate].
    destruct (insert comparefn x (fst r1)) as [r2|e] eqn:I; cbn in H;
      [|discriminate].
    injection H as <-; cbn.
    rewrite (insert_perm _ _ _ I), (IH r1 eq_refl); reflexivity.
Qed.

Hypothesis order_perm : forall l, Permutation (inconsistent_order l) l.

(** Whatever the comparator says, a sort that returns returns the same
    elements. *)
Lemma sort_perm (l r : list A) :
  sort comparefn inconsistent_order l = Normal r -> Permutation r l.
Proof.
  unfold sort; destruct (sort_run comparefn l) as [r1|e] eqn:S; cbn;
    [|discriminate].
  intros H; injection H as <-.
  destruct (snd r1); [apply order_perm | apply (sort_run_perm _ _ S)].
Qed.

(** A comparator that never throws on the elements lets the sort
    return. *)
Lemma insert_returns (x : A) (l : list A) :
  (forall y, In y l -> forall e, comparefn x y <> Throw e) ->
  exists r, insert comparefn x l = Normal r.
Proof.
  induction l as [|y l IH]; cbn; intros H; [eauto|].
  destruct (comparefn x y) as [[d|]|e] eqn:C; cbn.
  - destruct (d <=? 0); [eauto|].
    destruct IH as [r ->]; [intros; apply H; auto|]. cbn; eauto.
  - eauto.
  - exfalso; apply (H y (or_introl eq_refl) e C).
Qed.

Lemma sort_run_returns (l : list A) :
  (forall a b, In a l -> In b l -> forall e, comparefn a b <> Throw e) ->
  exists r, sort_run comparefn l = Normal r.
Proof.
  induction l as [|x l IH]; cbn; intros H; [eauto|].
  destruct IH as [r1 S]; [intros; apply H; auto|].
  rewrite S; cbn.
  destruct (insert_returns x (fst r1)) as [r2 ->]; [|cbn; eauto].
  intros y Hy; apply H; [left; reflexivity | right].
  apply (Permutation_in _ (sort_run_perm _ _ S)); exact Hy.
Qed.

Lemma sort_returns (l : list A) :
  (List.length l < 2)%nat
  \/ (forall a b, In a l -> In b l -> forall e, comparefn a b <> Throw e) ->
  exists r, sort comparefn inconsistent_order l = Normal r.
Proof.
  intros [H|H].
  - destruct l as [|x [|y l]]; cbn in H; try lia; unfold sort; cbn; eauto.
  - unfold sort; destruct (sort_run_returns l H) as [r ->]; cbn; eauto.
Qed.

(** On elements of [P] the comparator is the difference of a key. *)
Variable P : A -> Prop.
Variable key : A -> Z.
Hypothesis keyed :
  forall a b, P a -> P b -> comparefn a b = Normal (Some (key b - key a)).

Let falling (a b : A) : Prop := key b <= key a.
Let keyed_at (k : Z) (l : list A) : list A :=
  List.filter (fun t => key t =? k) l.

Lemma insert_keyed (x : A) (l : list A) :
  P x -> Forall P l ->
  exists r,
    insert comparefn x l = Normal (r, false)
    /\ (StronglySorted falling l -> StronglySorted falling r)
    /\ (forall k, keyed_at k r = keyed_at k (x :: l))
    /\ (HdRel falling x l -> r = x :: l).
Proof.
  unfold falling, keyed_at; intros Px Pl.
  induction l as [|y l IH]; cbn [insert].
  - exists [x]; repeat split; repeat constructor.
  - inversion Pl as [|? ? Py Pl']; subst.
    rewrite (keyed x y Px Py); cbn [and_then].
    destruct (key y - key x <=? 0) eqn:E.
    + apply Z.leb_le in E.
      exists (x :: y :: l); split; [reflexivity|]. split; [|split; auto].
      intros S; constructor; [exact S|].
      inversion S as [|? ? _ Hy]; subst.
      constructor; [lia|].
      rewrite Forall_forall in *; intros z Hz; specialize (Hy z Hz); lia.
    + apply Z.leb_gt in E.
      destruct (IH Pl') as (r & Er & Sr & Kr & _); rewrite Er; cbn.
      exists (y :: r); split; [reflexivity|]. split; [|split].
      * intros S; inversion S as [|? ? Sl Hy]; subst.
        constructor; [apply Sr; exact Sl|].
        rewrite Forall_forall in *; intros z Hz.
        assert (Hz' : In z (x :: l))
          by (apply (Permutation_in z (insert_perm x l (r, false) Er));
              exact Hz).
        destruct Hz' as [<-|Hz']; [lia | apply Hy; exact Hz'].
      * intros k; cbn [List.filter]; rewrite Kr; cbn [List.filter].
        destruct (key x =? k) eqn:X; destruct (key y =? k) eqn:Y;
          try reflexivity.
        apply Z.eqb_eq in X, Y; lia.
      * intros Hd; inversion Hd; subst; lia.
Qed.

Lemma sort_run_keyed (l : list A) :
  Forall P l ->
  exists r,
    sort_run comparefn l = Normal (r, false)
    /\ Permutation r l
    /\ StronglySorted falling r
    /\ (forall k, keyed_at k r = keyed_at k l)
    /\ (StronglySorted falling l -> r = l).
Proof.
  unfold keyed_at; induction 1 as [|x l Px Pl IH]; cbn [sort_run].
  - exists []; repeat split; constructor.
  - destruct IH as (r1 & -> & Perm & S1 & K1 & Id); cbn [and_then fst snd].
    assert (P1 : Forall P r1).
    { rewrite Forall_forall in *; intros y Hy; apply Pl.
      apply (Permutation_in _ Perm); exact Hy. }
    destruct (insert_keyed x r1 Px P1) as (r & E & Sr & Kr & Hd).
    rewrite E; cbn. exists r; split; [reflexivity|].
    split; [|split; [|split]].
    + rewrite (insert_perm _ _ _ E : Permutation (fst (r, false)) _).
      apply perm_skip; exact Perm.
    + apply Sr; exact S1.
    + intros k; unfold keyed_at in Kr; rewrite Kr; cbn [List.filter].
      rewrite K1; reflexivity.
    + intros S; inversion S as [|? ? Sl Hx]; subst.
      rewrite (Id Sl) in Hd. apply Hd.
      destruct l; constructor. inversion Hx; assumption.
Qed.

(** Where every element has a key, the sort returns them stably sorted,
    largest key first, and unchanged if they already were. *)
Lemma sort_keyed (l : list A) :
  Forall P l ->
  exists r,
    sort comparefn inconsistent_order l = Normal r
    /\ Permutation r l
    /\ StronglySorted falling r
    /\ (forall k, keyed_at k r = keyed_at k l)
    /\ (StronglySorted falling l -> r = l).
Proof.
  intros H; destruct (sort_run_keyed l H) as (r & E & Hr).
  exists r; unfold sort; rewrite E; cbn; split; [reflexivity | exact Hr].
Qed.

End SortFacts.

(** ** The comparator of [load] *)

Section Comparator.
Context {host : Host}.

Lemma by_createdAt_numbers (a b : obj) (x y : Z) :
  numeric_key a = Normal (Some x) ->
  numeric_key b = Normal (Some y) ->
  by_createdAt a b = Normal (Some (y - x)).
Proof.
  unfold numeric_key, by_createdAt; intros -> ->; reflexivity.
Qed.

Lemma by_createdAt_faultless (a b : obj) :
  faultless a -> faultless b -> forall e, by_createdAt a b <> Throw e.
Proof.
  unfold faultless, numeric_key, by_createdAt; intros Ha Hb e.
  destruct (to_number (or_zero (prop_get b k_createdAt))) as [x|eb] eqn:B;
    [|exfalso; apply (Hb eb); reflexivity].
  destruct (to_number (or_zero (prop_get a k_createdAt))) as [y|ea] eqn:A';
    [|exfalso; apply (Ha ea); reflexivity].
  cbn; discriminate.
Qed.

Lemma dated_key (t : obj) :
  dated t -> numeric_key t = Normal (Some (key_of t)).
Proof.
  unfold dated, key_of, createdAt_key, numeric_key, or_zero.
  destruct (prop_get t k_createdAt) as [| | |x| | |]; intros H;
    try congruence; cbn; try reflexivity.
  destruct (x =? 0) eqn:E; cbn; [|reflexivity].
  apply Z.eqb_eq in E; subst; reflexivity.
Qed.

Lemma by_createdAt_key (a b : obj) :
  dated a -> dated b ->
  by_createdAt a b = Normal (Some (key_of b - key_of a)).
Proof.
  intros Ha Hb; apply by_createdAt_numbers; apply dated_key; assumption.
Qed.

Lemma converts_number (t : obj) :
  converts t -> numeric_key t = Normal (Some (createdAt_number t)).
Proof.
  unfold createdAt_number; intros [z E]; rewrite E; reflexivity.
Qed.

Lemma by_createdAt_converts (a b : obj) :
  converts a -> converts b ->
  by_createdAt a b
  = Normal (Some (createdAt_number b - createdAt_number a)).
Proof.
  intros Ha Hb; apply by_createdAt_numbers; apply converts_number; assumption.
Qed.

Lemma dated_converts (t : obj) :
  dated t -> converts t /\ createdAt_number t = key_of t.
Proof.
  intros D; pose proof (dated_key t D) as E.
  split; [exists (key_of t); exact E|].
  unfold createdAt_number; rewrite E; reflexivity.
Qed.

Lemma converts_faultless (t : obj) : converts t -> faultless t.
Proof. intros [z E] e; rewrite E; discriminate. Qed.

End Comparator.

(** ** What [load] keeps *)

Lemma well_shaped_obj (t : value) :
  well_shaped t = true <->
  exists o, t = VObj o
            /\ is_string (prop_get o k_id) = true
            /\ is_string (prop_get o k_title) = true.
Proof.
  unfold well_shaped; split.
  - intros H; apply andb_true_iff in H as [H Ht].
    apply andb_true_iff in H as [_ Hi].
    destruct t; simpl in *; try discriminate.
    eexists; repeat split; assumption.
  - intros (o & -> & Hi & Ht); simpl; rewrite Hi, Ht; reflexivity.
Qed.

Lemma survivors_In (elems : list value) (o : obj) :
  In o (survivors elems) <->
  In (VObj o) elems
  /\ is_string (prop_get o k_id) = true
  /\ is_string (prop_get o k_title) = true.
Proof.
  unfold survivors; rewrite in_map_iff; split.
  - intros (t & E & Hin); apply filter_In in Hin as [Hin W].
    apply well_shaped_obj in W as (o' & -> & Hi & Ht).
    simpl in E; subst; auto.
  - intros (Hin & Hi & Ht); exists (VObj o); split; [reflexivity|].
    apply filter_In; split; [assumption|].
    apply well_shaped_obj; eauto.
Qed.

(** ** Validation of titles *)

Lemma title_refused_false (title : value) :
  title_refused title = false <->
  trimTitle title <> [] /\ (List.length (trimTitle title) <= 500)%nat.
Proof.
  unfold title_refused; rewrite orb_false_iff, negb_false_iff, Z.ltb_ge.
  simpl; destruct (trimTitle title); simpl; split; intros [H1 H2];
    try discriminate; try congruence; split; try reflexivity; try lia.
  intros E; discriminate.
Qed.

Lemma title_refused_true (title : value) :
  title_refused title = true <->
  trimTitle title = [] \/ (500 < List.length (trimTitle title))%nat.
Proof.
  unfold title_refused; rewrite orb_true_iff, negb_true_iff, Z.ltb_lt.
  simpl; destruct (trimTitle title); simpl; split; intros [H|H];
    auto; try discriminate; right; lia.
Qed.

Lemma findIndex_Some {A} (p : A -> bool) (l : list A) :
  (exists t, In t l /\ p t = true) <-> findIndex p l <> None.
Proof.
  induction l as [|x l IH]; simpl.
  - split; [intros (t & [] & _) | congruence].
  - destruct (p x) eqn:E.
    + split; [discriminate | intros _; exists x; auto].
    + split.
      * intros (t & [->|Hin] & Ht); [congruence|].
        destruct (findIndex p l); [discriminate|].
        apply IH; eauto.
      * intros H. destruct (findIndex p l) eqn:F; [|congruence].
        destruct IH as [_ IH]. destruct IH as (t & Hin & Ht);
          [discriminate | eauto].
Qed.

Section Claims.
Context {host : Host}.

(** ** Rejections *)

(** C1. Rejection atomicity: whenever a call on the model returns the
    rejection signal ([null]), the world after the call is the world before
    it: the same state, the same stored content, and no [localStorage]
    call, read or write, was made. *)
Theorem rejection_changes_nothing (c : call) (w w' : world) :
  run c w = (Normal Rejected, w') ->
  st w' = st w /\ disk w' = disk w /\ trace w' = trace w.
Proof.
  intros H; assert (E : w' = w); [|subst; auto].
  destruct c; unfold run, bind in H;
    rewrite ?load_eq, ?addTodo_eq, ?toggleTodo_eq, ?deleteTodo_eq,
      ?editTodo_eq, ?setFilter_eq, ?clearCompleted_eq in H;
    unfold get_state, ret in H; simpl in H;
    try discriminate.
  - destruct (title_refused title); simpl in H; congruence.
  - destruct (findIndex _ _); simpl in H; congruence.
  - destruct (findIndex _ _); simpl in H; congruence.
  - destruct (title_refused newTitle); simpl in H; [congruence|].
    destruct (findIndex _ _); simpl in H; congruence.
  - destruct filterType; simpl in H; try congruence.
    destruct (valid_filter s); simpl in H; congruence.
Qed.

(** When each call is rejected. *)
Lemma rejected_iff (c : call) (w : world) :
  fst (run c w) = Normal Rejected <->
  match c with
  | AddTodo _ _ title =>
      trimTitle title = [] \/ (500 < List.length (trimTitle title))%nat
  | EditTodo id title =>
      (trimTitle title = [] \/ (500 < List.length (trimTitle title))%nat)
      \/ ~ (exists t, In t (todos (st w)) /\ has_id id t = true)
  | ToggleTodo id | DeleteTodo id =>
      ~ (exists t, In t (todos (st w)) /\ has_id id t = true)
  | SetFilter v =>
      ~ (v = VStr f_all \/ v = VStr f_active \/ v = VStr f_completed)
  | _ => False
  end.
Proof.
  destruct c; unfold run, bind;
    rewrite ?load_eq, ?addTodo_eq, ?toggleTodo_eq, ?deleteTodo_eq,
      ?editTodo_eq, ?setFilter_eq, ?clearCompleted_eq;
    unfold get_state, ret; simpl;
    try (split; [discriminate | tauto]).
  - rewrite <- title_refused_true.
    destruct (title_refused title); simpl; split; congruence.
  - rewrite findIndex_Some.
    destruct (findIndex _ _); simpl; split; try congruence.
    intros H; exfalso; apply H; discriminate.
  - rewrite findIndex_Some.
    destruct (findIndex _ _); simpl; split; try congruence.
    intros H; exfalso; apply H; discriminate.
  - rewrite <- title_refused_true, findIndex_Some.
    destruct (title_refused newTitle); simpl; [tauto|].
    destruct (findIndex _ _); simpl; split; try congruence; try tauto.
    all: try (intros [H|H]; [discriminate | exfalso; apply H; discriminate]).
    all: try (intros _; right; intros H; apply H; reflexivity).
  - destruct filterType; simpl;
      try (split; [intros _ [H|[H|H]]; discriminate | reflexivity]).
    unfold valid_filter.
    destruct (str_eqb f_all s) eqn:E1; simpl.
    { apply str_eqb_eq in E1; subst.
      split; [discriminate | intros H; exfalso; apply H; auto]. }
    destruct (str_eqb f_active s) eqn:E2; simpl.
    { apply str_eqb_eq in E2; subst.
      split; [discriminate | intros H; exfalso; apply H; auto]. }
    destruct (str_eqb f_completed s) eqn:E3; simpl.
    { apply str_eqb_eq in E3; subst.
      split; [discriminate | intros H; exfalso; apply H; auto]. }
    split; [|reflexivity]. intros _ [H|[H|H]]; injection H as ->.
    + rewrite str_eqb_refl in E1; discriminate.
    + rewrite str_eqb_refl in E2; discriminate.
    + rewrite str_eqb_refl in E3; discriminate.
Qed.

(** ** Creating and editing *)

(** C3. create postcondition: for every world and every title whose
    trimmed form is non-empty and at most 500 code units long, [addTodo]
    returns a new state, which is also the state the model then holds; its
    items are the old items with one new item in front, made of the id just
    generated, the trimmed title, [completed = false] and the clock reading
    as [createdAt]; the filter is the old one. *)
Theorem create_postcondition (uuid : jsstring) (now : Z) (title : value)
    (w : world) :
  trimTitle title <> [] ->
  (List.length (trimTitle title) <= 500)%nat ->
  exists newState w',
    addTodo uuid now title w = (Normal (Some newState), w')
    /\ st w' = newState
    /\ todos newState =
       [ (k_id, VStr uuid); (k_title, VStr (trimTitle title));
         (k_completed, VBool false); (k_createdAt, VNum now) ]
       :: todos (st w)
    /\ currentFilter newState = currentFilter (st w).
Proof.
  intros Hne Hlen.
  assert (R : title_refused title = false)
    by (apply title_refused_false; auto).
  exists (added uuid now title (st w)), (saved (added uuid now title (st w)) w).
  rewrite addTodo_eq, R, saved_st; repeat split.
Qed.

(** C4. The 500-character boundary: in every world, a title that is
    exactly 500 code units long after trimming is accepted by [addTodo], and
    by [editTodo] for the id of any item present; a title that is 501 code
    units long after trimming is rejected by both and the world stays as it
    was. *)
Theorem title_length_boundary (uuid : jsstring) (now : Z) (id : jsstring)
    (title : value) (w : world) :
  (List.length (trimTitle title) = 500%nat ->
   (exists newState w',
      addTodo uuid now title w = (Normal (Some newState), w')
      /\ st w' = newState)
   /\ ((exists t, In t (todos (st w)) /\ has_id id t = true) ->
       exists newState w',
         editTodo id title w = (Normal (Some newState), w')
         /\ st w' = newState))
  /\ (List.length (trimTitle title) = 501%nat ->
      addTodo uuid now title w = (Normal None, w)
      /\ editTodo id title w = (Normal None, w)).
Proof.
  split; intros L.
  - assert (R : title_refused title = false).
    { apply title_refused_false; split; [|lia].
      intros E; rewrite E in L; discriminate. }
    rewrite addTodo_eq, editTodo_eq, R; split.
    + eexists _, _; split; [reflexivity | apply saved_st].
    + intros Hid; apply findIndex_Some in Hid.
      destruct (findIndex _ _); [|congruence].
      eexists _, _; split; [reflexivity | apply saved_st].
  - assert (R : title_refused title = true)
      by (apply title_refused_true; right; lia).
    rewrite addTodo_eq, editTodo_eq, R; split; reflexivity.
Qed.

(** C10. A title argument that is not a string ([null], [undefined], a
    number, an object, ...) trims to the empty string, so [addTodo] and
    [editTodo] return [null] normally (nothing is thrown) and leave the
    world as it was. *)
Theorem non_string_title_rejected (uuid : jsstring) (now : Z)
    (id : jsstring) (title : value) (w : world) :
  is_string title = false ->
  trimTitle title = []
  /\ addTodo uuid now title w = (Normal None, w)
  /\ editTodo id title w = (Normal None, w).
Proof.
  intros Hs.
  assert (T : trimTitle title = [])
    by (destruct title; try reflexivity; discriminate).
  assert (R : title_refused title = true)
    by (apply title_refused_true; left; exact T).
  rewrite addTodo_eq, editTodo_eq, R; auto.
Qed.

(** ** Object properties *)

Lemma prop_get_set_same (k : jsstring) (v : value) (o : obj) :
  prop_get (prop_set k v o) k = v.
Proof.
  induction o as [|[k1 v1] o IH]; simpl.
  - rewrite str_eqb_refl; reflexivity.
  - destruct (str_eqb k1 k) eqn:E; simpl.
    + rewrite str_eqb_refl; reflexivity.
    + rewrite E; exact IH.
Qed.

Lemma prop_get_set_other (k k' : jsstring) (v : value) (o : obj) :
  k' <> k -> prop_get (prop_set k v o) k' = prop_get o k'.
Proof.
  intros Hk.
  assert (N : str_eqb k k' = false).
  { destruct (str_eqb k k') eqn:E; [|reflexivity].
    apply str_eqb_eq in E; congruence. }
  induction o as [|[k1 v1] o IH]; simpl.
  - rewrite N; reflexivity.
  - destruct (str_eqb k1 k) eqn:E; simpl.
    + apply str_eqb_eq in E; subst k1. rewrite N; reflexivity.
    + destruct (str_eqb k1 k'); [reflexivity | exact IH].
Qed.

Lemma prop_set_set (k : jsstring) (v v' : value) (o : obj) :
  prop_set k v (prop_set k v' o) = prop_set k v o.
Proof.
  induction o as [|[k1 v1] o IH]; simpl.
  - rewrite str_eqb_refl; reflexivity.
  - destruct (str_eqb k1 k) eqn:E; simpl.
    + rewrite str_eqb_refl; reflexivity.
    + rewrite E, IH; reflexivity.
Qed.

(** Writing back the value a property already has changes nothing. *)
Lemma prop_set_get (k : jsstring) (v : value) (o : obj) :
  prop_get o k = v -> v <> VUndef -> prop_set k v o = o.
Proof.
  intros G Hv; induction o as [|[k1 v1] o IH]; simpl in *.
  - congruence.
  - destruct (str_eqb k1 k) eqn:E.
    + apply str_eqb_eq in E; subst; reflexivity.
    + rewrite (IH G); reflexivity.
Qed.

Lemma findIndex_map {A} (p : A -> bool) (f : A -> A) (l : list A) :
  (forall t, p (f t) = p t) ->
  findIndex p (List.map f l) = findIndex p l.
Proof.
  intros Hp; induction l as [|x l IH]; simpl; [reflexivity|].
  rewrite Hp, IH; reflexivity.
Qed.

Lemma has_id_set_completed (id : jsstring) (v : value) (t : obj) :
  has_id id (prop_set k_completed v t) = has_id id t.
Proof.
  unfold has_id; rewrite prop_get_set_other; [reflexivity|].
  intros E; vm_compute in E; discriminate.
Qed.

(** ** Toggling *)

(** C8, as amended. Toggle involution: for every world and every id that
    some item carries, two [toggleTodo(id)] calls in a row are both accepted
    and leave a collection of the same length in which, position by
    position, an item with another id is the original item, and an item with
    that id has every other property as before and as [completed] the
    boolean its original flag read as: when the original flag was a boolean
    the whole item is the original item. *)
Theorem toggle_twice (id : jsstring) (w : world) :
  (exists t, In t (todos (st w)) /\ has_id id t = true) ->
  exists s1 w1 s2 w2,
    toggleTodo id w = (Normal (Some s1), w1)
    /\ toggleTodo id w1 = (Normal (Some s2), w2)
    /\ st w2 = s2
    /\ currentFilter s2 = currentFilter (st w)
    /\ List.length (todos s2) = List.length (todos (st w))
    /\ forall i t,
         nth_error (todos (st w)) i = Some t ->
         exists t',
           nth_error (todos s2) i = Some t'
           /\ completed_flag t' = completed_flag t
           /\ (forall k, k <> k_completed -> prop_get t' k = prop_get t k)
           /\ (has_id id t = false -> t' = t)
           /\ (forall b, prop_get t k_completed = VBool b -> t' = t)
           /\ (has_id id t = true ->
               prop_get t' k_completed = VBool (completed_flag t)).
Proof.
  intros Hid; apply findIndex_Some in Hid.
  set (flip := fun t : obj =>
         if has_id id t
         then prop_set k_completed (VBool (negb (completed_flag t))) t
         else t).
  assert (Hflip : forall t, has_id id (flip t) = has_id id t).
  { intros t; unfold flip; destruct (has_id id t) eqn:E;
      [rewrite has_id_set_completed|]; exact E. }
  set (s1 := {| todos := List.map flip (todos (st w));
                currentFilter := currentFilter (st w) |}).
  set (s2 := {| todos := List.map flip (todos s1);
                currentFilter := currentFilter s1 |}).
  exists s1, (saved s1 w), s2, (saved s2 (saved s1 w)).
  split; [|split; [|split; [|split; [|split]]]].
  - rewrite toggleTodo_eq.
    destruct (findIndex _ _); [reflexivity | congruence].
  - rewrite toggleTodo_eq, saved_st; simpl.
    fold flip. rewrite (findIndex_map _ flip _ Hflip).
    destruct (findIndex _ _); [reflexivity | congruence].
  - apply saved_st.
  - reflexivity.
  - simpl; rewrite !length_map; reflexivity.
  - intros i t Hi; exists (flip (flip t)); split.
    { simpl; rewrite !nth_error_map, Hi; reflexivity. }
    destruct (has_id id t) eqn:E.
    + assert (FF : flip (flip t)
                   = prop_set k_completed (VBool (completed_flag t)) t).
      { unfold flip; rewrite E, has_id_set_completed, E.
        unfold completed_flag at 1; rewrite prop_get_set_same.
        cbn [truthy]; rewrite prop_set_set, negb_involutive; reflexivity. }
      rewrite FF; repeat split.
      * unfold completed_flag at 1; rewrite prop_get_set_same; reflexivity.
      * intros k Hk; apply prop_get_set_other; exact Hk.
      * discriminate.
      * intros b Hb; unfold completed_flag; rewrite Hb; simpl.
        apply prop_set_get; [exact Hb | discriminate].
      * intros _; apply prop_get_set_same.
    + assert (FF : flip (flip t) = t) by (unfold flip; rewrite E, E; reflexivity).
      rewrite FF; repeat split; auto; discriminate.
Qed.

(** ** The filtered view *)

Lemma filter_split {A} (p : A -> bool) (l : list A) :
  Permutation (List.filter (fun t => negb (p t)) l ++ List.filter p l) l.
Proof.
  induction l as [|x l IH]; simpl; [reflexivity|].
  destruct (p x); simpl.
  - rewrite <- Permutation_middle; apply perm_skip; exact IH.
  - apply perm_skip; exact IH.
Qed.

(** C9. Filter partition: for every collection, what [getFilteredTodos]
    returns under 'active' followed by what it returns under 'completed' is
    a rearrangement of what it returns under 'all'; an item is in the 'all'
    view exactly when it is in one of the two, and no item is in both. *)
Theorem filter_partition (items : list obj) :
  let view f := getFilteredTodos {| todos := items; currentFilter := f |} in
  Permutation (view f_active ++ view f_completed) (view f_all)
  /\ (forall t, In t (view f_all) <->
                In t (view f_active) \/ In t (view f_completed))
  /\ (forall t, ~ (In t (view f_active) /\ In t (view f_completed))).
Proof.
  intros view.
  assert (Va : view f_active =
               List.filter (fun t => negb (completed_flag t)) items)
    by reflexivity.
  assert (Vc : view f_completed = List.filter completed_flag items)
    by reflexivity.
  assert (Vl : view f_all = items) by reflexivity.
  rewrite Va, Vc, Vl; split; [apply filter_split | split].
  - intros t; rewrite !filter_In.
    destruct (completed_flag t); simpl; tauto.
  - intros t; rewrite !filter_In.
    destruct (completed_flag t); simpl; intros [[_ H1] [_ H2]]; discriminate.
Qed.

(** ** Failing writes *)

Lemma run_new_state (c : call) (s : state) (w w' : world) :
  run c w = (Normal (NewState s), w') -> st w' = s.
Proof.
  destruct c; unfold run, bind;
    rewrite ?load_eq, ?addTodo_eq, ?toggleTodo_eq, ?deleteTodo_eq,
      ?editTodo_eq, ?setFilter_eq, ?clearCompleted_eq;
    unfold get_state, ret; cbn [fst snd];
    try discriminate.
  - destruct (title_refused title); cbn; intros H; inversion H.
    apply saved_st.
  - destruct (findIndex _ _); cbn; intros H; inversion H. apply saved_st.
  - destruct (findIndex _ _); cbn; intros H; inversion H. apply saved_st.
  - destruct (title_refused newTitle); cbn; [discriminate|].
    destruct (findIndex _ _); cbn; intros H; inversion H. apply saved_st.
  - destruct filterType; cbn; try discriminate.
    destruct (valid_filter s0); cbn; intros H; inversion H. apply saved_st.
  - cbn; intros H; inversion H. apply saved_st.
Qed.

(** What a call returns, and the state it leaves in memory, do not depend
    on whether the storage takes the writes. *)
Lemma run_any_storage
    (accepts : list (jsstring * jsstring) -> jsstring -> jsstring -> bool)
    (c : call) (w : world) :
  fst (@run (with_storage host accepts) c w) = fst (run c w)
  /\ st (snd (@run (with_storage host accepts) c w)) = st (snd (run c w)).
Proof.
  destruct c; unfold run, bind;
    rewrite ?addTodo_eq, ?toggleTodo_eq, ?deleteTodo_eq,
      ?editTodo_eq, ?setFilter_eq, ?clearCompleted_eq;
    unfold get_state, ret; cbn [fst snd].
  - split; reflexivity.
  - destruct (title_refused title); cbn; rewrite ?saved_st; auto.
  - destruct (findIndex _ _); cbn; rewrite ?saved_st; auto.
  - destruct (findIndex _ _); cbn; rewrite ?saved_st; auto.
  - destruct (title_refused newTitle); cbn; [auto|].
    destruct (findIndex _ _); cbn; rewrite ?saved_st; auto.
  - destruct filterType; cbn; auto.
    destruct (valid_filter s); cbn; rewrite ?saved_st; auto.
  - cbn; rewrite ?saved_st; auto.
  - auto.
  - auto.
  - auto.
Qed.

Lemma run_normal (c : call) (w : world) :
  exists o w', run c w = (Normal o, w').
Proof.
  destruct c; unfold run, bind;
    rewrite ?load_eq, ?addTodo_eq, ?toggleTodo_eq, ?deleteTodo_eq,
      ?editTodo_eq, ?setFilter_eq, ?clearCompleted_eq;
    unfold get_state, ret;
    repeat match goal with
           | |- context [if ?b then _ else _] => destruct b
           | |- context [match findIndex ?p ?l with _ => _ end] =>
               destruct (findIndex p l)
           | |- context [match ?v with VStr _ => _ | _ => _ end] =>
               destruct v
           end; cbn; eexists _, _; reflexivity.
Qed.

(** C7. A failing write is not fatal: whenever the write that
    [save newState] makes on the world fails (the first [setItem] throws, or
    the second does), [save] still completes normally and the model holds
    [newState]; and any call that would have returned [newState] over a
    working storage completes normally here as well, returns [newState], and
    leaves [newState] in memory. *)
Theorem failed_write_is_silent (w : world) (newState : state) :
  write_fails w newState ->
  (exists w',
     save newState w = (Normal tt, w')
     /\ st w' = newState)
  /\ (forall c,
        fst (@run (with_storage host storage_ok) c w)
        = Normal (NewState newState) ->
        exists w',
          run c w = (Normal (NewState newState), w')
          /\ st w' = newState).
Proof.
  intros F; split.
  - exists (saved newState w); rewrite save_eq, saved_st; split; reflexivity.
  - intros c Hc.
    destruct (run_any_storage storage_ok c w) as [Ho _].
    destruct (run_normal c w) as (o & w' & R).
    rewrite Hc, R in Ho; cbn in Ho; injection Ho as <-.
    exists w'; split; [exact R | apply (run_new_state c _ w _ R)].
Qed.

(** ** Titles held by the model *)

Lemma accepted_title_ok (title : value) (t : obj) :
  title_refused title = false ->
  prop_get t k_title = VStr (trimTitle title) ->
  title_okb t = true.
Proof.
  intros R G; apply title_refused_false in R as [Hne Hlen].
  unfold title_okb; rewrite G.
  assert (T : trim (trimTitle title) = trimTitle title).
  { destruct title; try reflexivity. apply trim_idempotent. }
  rewrite T. destruct (trimTitle title) eqn:E; [congruence|].
  apply Nat.leb_le in Hlen; rewrite Hlen; reflexivity.
Qed.

Lemma title_okb_set_completed (v : value) (t : obj) :
  title_okb (prop_set k_completed v t) = title_okb t.
Proof.
  unfold title_okb; rewrite prop_get_set_other; [reflexivity|].
  intros E; vm_compute in E; discriminate.
Qed.

Lemma Forall_filter {A} (P : A -> Prop) (p : A -> bool) (l : list A) :
  Forall P l -> Forall P (List.filter p l).
Proof.
  rewrite !Forall_forall; intros H x Hx.
  apply filter_In in Hx as [Hx _]; auto.
Qed.

Lemma Forall_map_same {A} (P : A -> Prop) (f : A -> A) (l : list A) :
  (forall x, P x -> P (f x)) -> Forall P l -> Forall P (List.map f l).
Proof.
  intros Hf H; induction H; simpl; constructor; auto.
Qed.

(** Every call but [load] keeps the titles acceptable. *)
Lemma step_titles_ok (c : call) (w : world) :
  c <> Load -> titles_ok (st w) -> titles_ok (st (step c w)).
Proof.
  unfold titles_ok, step; intros Hc H.
  destruct c; try congruence; unfold run, bind;
    rewrite ?addTodo_eq, ?toggleTodo_eq, ?deleteTodo_eq,
      ?editTodo_eq, ?setFilter_eq, ?clearCompleted_eq;
    unfold get_state, ret; cbn [fst snd]; try exact H.
  - destruct (title_refused title) eqn:R; cbn; [exact H|].
    rewrite saved_st; cbn; constructor; [|exact H].
    apply (accepted_title_ok title); [exact R | reflexivity].
  - destruct (findIndex _ _); cbn; [|exact H].
    rewrite saved_st; cbn. apply Forall_map_same; [|exact H].
    intros t Ht; destruct (has_id id t);
      [rewrite title_okb_set_completed|]; exact Ht.
  - destruct (findIndex _ _); cbn; [|exact H].
    rewrite saved_st; cbn. apply Forall_filter; exact H.
  - destruct (title_refused newTitle) eqn:R; cbn; [exact H|].
    destruct (findIndex _ _); cbn; [|exact H].
    rewrite saved_st; cbn. apply Forall_map_same; [|exact H].
    intros t Ht; destruct (has_id id t); [|exact Ht].
    apply (accepted_title_ok newTitle); [exact R|].
    apply prop_get_set_same.
  - destruct filterType; cbn; try exact H.
    destruct (valid_filter s); cbn; [|exact H].
    rewrite saved_st; exact H.
  - cbn; rewrite saved_st; cbn. apply Forall_filter; exact H.
Qed.

(** [load] keeps them acceptable when what it reads is. *)
Lemma load_titles_ok (w : world) :
  stored_titles_ok w -> titles_ok (st w) -> titles_ok (st (step Load w)).
Proof.
  unfold titles_ok, step, run, bind; intros Hs H.
  rewrite load_eq; cbn [fst snd ret].
  destruct (lookup STORAGE_KEY (disk w)) as [[|c text]|] eqn:L.
  - rewrite load_absent by auto; exact H.
  - destruct (JSON_parse (c :: text)) as [v|] eqn:P.
    + assert (A : (exists elems, v = VArr elems)
                  \/ (forall elems, v <> VArr elems)).
      { destruct v; try (right; discriminate). left; eauto. }
      destruct A as [[elems ->]|A].
      * destruct (sort by_createdAt engine_order (survivors elems))
          as [sorted|e] eqn:S.
        -- rewrite (load_array w _ elems sorted L)
             by (discriminate || assumption); cbn.
           rewrite Forall_forall; intros t Ht.
           apply (Permutation_in _
                    (sort_perm _ _ engine_order_perm _ _ S)) in Ht.
           pose proof (Hs _ _ L P) as K; rewrite Forall_forall in K; auto.
        -- rewrite (load_array_throws w _ elems e L)
             by (discriminate || assumption).
           constructor.
      * rewrite (load_not_array w _ v L) by (discriminate || assumption).
        exact H.
    + rewrite (load_unparseable w _ L) by (discriminate || exact P).
      constructor.
  - rewrite load_absent by auto; exact H.
Qed.

(** C2, as amended. Title invariant: in every world reached from the
    empty default by any calls on the model, where each [load] along the way
    found only acceptable titles among the stored records it keeps, every
    item's title is a string that is non-empty after trimming and at most
    500 code units long. *)
Theorem titles_ok_when_stored_ok (w : world) :
  reachable_clean w -> titles_ok (st w).
Proof.
  induction 1 as [stored | w R IH S | c w R IH Hc].
  - constructor.
  - apply load_titles_ok; assumption.
  - apply step_titles_ok; assumption.
Qed.

(** ** Hydration *)

Lemma valid_filter_iff (f : jsstring) :
  valid_filter f = true <-> f = f_all \/ f = f_active \/ f = f_completed.
Proof.
  unfold valid_filter; rewrite !orb_true_iff, !str_eqb_eq.
  intuition congruence.
Qed.

Lemma newer_or_same_trans : Relations_1.Transitive newer_or_same.
Proof. unfold newer_or_same; intros a b c H1 H2; lia. Qed.

(** C5, as amended. hydrate on parseable data: when the text stored
    under the todos key parses as an array, and fewer than two of its
    records are kept or no kept record's [createdAt] faults when converted
    to a number, [load] from the default state completes normally; the
    collection it leaves is a rearrangement of exactly the array's records
    that are objects with a string [id] and a string [title]; where every
    kept record's [createdAt] converts to a number (absent and falsy ones
    count as 0) the collection is ordered by that number descending; and
    the filter is the stored one if that is 'all', 'active' or 'completed',
    and 'all' otherwise. *)
Theorem load_array_postcondition (stored : list (jsstring * jsstring))
    (text : jsstring) (elems : list value) :
  JSON_parse [] = None ->
  lookup STORAGE_KEY stored = Some text ->
  JSON_parse text = Some (VArr elems) ->
  (List.length (survivors elems) < 2)%nat
  \/ Forall faultless (survivors elems) ->
  exists w',
    load (boot stored) = (Normal tt, w')
    /\ (forall o,
          In o (todos (st w')) <->
          In (VObj o) elems
          /\ is_string (prop_get o k_id) = true
          /\ is_string (prop_get o k_title) = true)
    /\ Permutation (todos (st w')) (survivors elems)
    /\ (Forall converts (survivors elems) ->
        StronglySorted larger_or_same (todos (st w')))
    /\ (forall f,
          lookup FILTER_KEY stored = Some f ->
          f = f_all \/ f = f_active \/ f = f_completed ->
          currentFilter (st w') = f)
    /\ ((forall f,
           lookup FILTER_KEY stored = Some f ->
           ~ (f = f_all \/ f = f_active \/ f = f_completed)) ->
        currentFilter (st w') = f_all).
Proof.
  intros P0 L P NF.
  assert (Hne : text <> []) by (intros ->; congruence).
  destruct (sort_returns by_createdAt engine_order (survivors elems))
    as [sorted S].
  { destruct NF as [NF|NF]; [left; exact NF | right].
    rewrite Forall_forall in NF; intros a b Ha Hb.
    apply by_createdAt_faultless; auto. }
  pose proof (sort_perm _ _ engine_order_perm _ _ S) as Perm.
  exists (loaded (boot stored)); rewrite load_eq.
  rewrite (load_array (boot stored) text elems sorted L Hne P S).
  cbn [todos currentFilter st].
  split; [reflexivity|]. split; [|split; [|split; [|split]]].
  - intros o; rewrite <- survivors_In; split; intros H.
    + apply (Permutation_in _ Perm); exact H.
    + apply (Permutation_in _ (Permutation_sym Perm)); exact H.
  - exact Perm.
  - intros C.
    destruct (sort_keyed by_createdAt engine_order converts createdAt_number
                by_createdAt_converts (survivors elems) C)
      as (r & E & _ & Sr & _).
    rewrite S in E; injection E as <-. exact Sr.
  - intros f Lf Hf; apply valid_filter_iff in Hf.
    unfold adopted_filter; cbn [disk boot]. rewrite Lf, Hf; reflexivity.
  - intros Hf; unfold adopted_filter; cbn [disk boot st].
    destruct (lookup FILTER_KEY stored) as [f|] eqn:Lf; [|reflexivity].
    destruct (valid_filter f) eqn:V; [|reflexivity].
    apply valid_filter_iff in V. exfalso; apply (Hf f); auto.
Qed.

(** C6, as amended. Corrupt-data recovery: for every non-empty text
    stored under the todos key that fails to parse, [load] from the default
    state completes normally and leaves the default state (no items, filter
    'all'), whatever is stored under the filter key. *)
Theorem load_corrupt_resets (stored : list (jsstring * jsstring))
    (text : jsstring) :
  lookup STORAGE_KEY stored = Some text ->
  text <> [] ->
  JSON_parse text = None ->
  exists w',
    load (boot stored) = (Normal tt, w')
    /\ st w' = initial_state.
Proof.
  intros L Hne P; exists (loaded (boot stored)); rewrite load_eq.
  split; [reflexivity|].
  apply (load_unparseable (boot stored) text L Hne P).
Qed.

End Claims.

(** ** Titles when the storage holds what the model wrote *)

Section RoundTrip.
Context {host : Host}.

(** [JSON.parse] gives back the array that [JSON.stringify] was given. *)
Hypothesis parse_stringify :
  forall l, JSON_parse (JSON_stringify l) = Some (VArr (List.map VObj l)).

Lemma survivors_of_objects (l : list obj) (o : obj) :
  In o (survivors (List.map VObj l)) -> In o l.
Proof.
  intros H; apply survivors_In in H as [H _].
  apply in_map_iff in H as (o' & E & Hin); injection E as ->; exact Hin.
Qed.

Lemma saved_disk (ns : state) (w : world) :
  disk (saved ns w) = disk w
  \/ disk (saved ns w) = (STORAGE_KEY, JSON_stringify (todos ns)) :: disk w
  \/ disk (saved ns w)
     = (FILTER_KEY, currentFilter ns)
         :: (STORAGE_KEY, JSON_stringify (todos ns)) :: disk w.
Proof.
  unfold saved, save, bind, try_catch, set_state, setItem, ret; cbn.
  destruct (storage_accepts _ _ _); cbn;
    [destruct (storage_accepts _ _ _); cbn|]; auto.
Qed.

Lemma loaded_disk (w : world) : disk (loaded w) = disk w.
Proof.
  unfold loaded, load, load_from, try_catch, bind, getItem, parse, ret,
    throw, lift, set_todos, set_currentFilter; cbn.
  destruct (lookup STORAGE_KEY (disk w)) as [[|c text]|]; cbn.
  2: destruct (JSON_parse (c :: text)) as [[| | | | |elems|]|]; cbn;
       try destruct (sort by_createdAt engine_order (survivors elems)); cbn.
  all: destruct (lookup FILTER_KEY (disk w)) as [[|d f]|]; cbn;
    try destruct (valid_filter (d :: f)); reflexivity.
Qed.

Lemma saved_stored_ok (ns : state) (w : world) :
  titles_ok ns -> stored_titles_ok w -> stored_titles_ok (saved ns w).
Proof.
  intros Hns Hw text elems L P.
  assert (K : forall t, lookup STORAGE_KEY
                          ((STORAGE_KEY, JSON_stringify (todos ns)) :: disk w)
                        = Some t ->
                        t = JSON_stringify (todos ns)).
  { intros t; cbn; rewrite str_eqb_refl; congruence. }
  assert (Own : text = JSON_stringify (todos ns) ->
                Forall (fun t => title_okb t = true) (survivors elems)).
  { intros ->; rewrite parse_stringify in P; injection P as <-.
    rewrite Forall_forall; intros o Ho.
    apply survivors_of_objects in Ho.
    unfold titles_ok in Hns; rewrite Forall_forall in Hns; auto. }
  destruct (saved_disk ns w) as [E|[E|E]]; rewrite E in L.
  - exact (Hw _ _ L P).
  - apply Own, K, L.
  - apply Own, K. exact L.
Qed.

Lemma step_shape (c : call) (w : world) :
  c <> Load -> step c w = w \/ exists ns, step c w = saved ns w.
Proof.
  intros Hc; unfold step.
  destruct c; try congruence; unfold run, bind;
    rewrite ?addTodo_eq, ?toggleTodo_eq, ?deleteTodo_eq,
      ?editTodo_eq, ?setFilter_eq, ?clearCompleted_eq;
    unfold get_state, ret; cbn [fst snd]; auto.
  - destruct (title_refused title); cbn; eauto.
  - destruct (findIndex _ _); cbn; eauto.
  - destruct (findIndex _ _); cbn; eauto.
  - destruct (title_refused newTitle); cbn; auto.
    destruct (findIndex _ _); cbn; eauto.
  - destruct filterType; cbn; auto.
    destruct (valid_filter s); cbn; eauto.
  - cbn; eauto.
Qed.

(** Booted over stored records with acceptable titles (or over nothing),
    the model never holds and never stores another kind, whatever is
    called, [load] included. *)
Lemma titles_ok_over_own_storage (stored : list (jsstring * jsstring))
    (calls : list call) :
  stored_titles_ok (boot stored) ->
  let w := fold_left (fun w c => step c w) calls (boot stored) in
  titles_ok (st w) /\ stored_titles_ok w.
Proof.
  intros H0; cbn zeta.
  assert (I0 : titles_ok (st (boot stored)) /\ stored_titles_ok (boot stored))
    by (split; [constructor | exact H0]).
  revert I0; generalize (boot stored) as w; clear H0.
  induction calls as [|c calls IH]; intros w I; [exact I|].
  cbn; apply IH; destruct I as [It Is].
  assert (A : c = Load \/ c <> Load)
    by (destruct c; auto; right; discriminate).
  destruct A as [->|Hc].
  - split; [apply load_titles_ok; assumption|].
    intros text elems L P.
    unfold step, run, bind in L; rewrite load_eq in L; cbn in L.
    rewrite loaded_disk in L. exact (Is _ _ L P).
  - pose proof (step_titles_ok c w Hc It) as It'.
    split; [exact It'|].
    destruct (step_shape c w Hc) as [E|[ns E]]; [rewrite E; exact Is|].
    rewrite E. apply saved_stored_ok; [|exact Is].
    rewrite E, saved_st in It'; exact It'.
Qed.

End RoundTrip.

(** * Instances *)

(** The example of the specification: records created at 1000, 2000 and
    1500 come out of [load] as 2000, 1500, 1000. *)
Example load_orders_three_records :
  List.map key_of (todos (st (@loaded three_host (boot three_stored))))
  = [2000; 1500; 1000].
Proof. vm_compute; reflexivity. Qed.

(** [editTodo] of an id nobody has is rejected and nothing moves. *)
Lemma rejection_changes_nothing_witness :
  @run plain_host (EditTodo (lit "missing") (VStr (lit "Buy bread")))
    one_item_world
  = (Normal Rejected, one_item_world)
  /\ st one_item_world = st one_item_world
  /\ disk one_item_world = disk one_item_world
  /\ trace one_item_world = trace one_item_world.
Proof.
  assert (R : @run plain_host
                (EditTodo (lit "missing") (VStr (lit "Buy bread")))
                one_item_world
              = (Normal Rejected, one_item_world))
    by (vm_compute; reflexivity).
  split; [exact R|].
  exact (@rejection_changes_nothing plain_host _ _ _ R).
Defined.

(** C2, as stated, fails: [load] keeps a stored record whose title is the
    empty string, so one call from the empty default reaches a state holding
    an item with an empty title. *)
Lemma load_admits_blank_title :
  @reachable blank_title_host
    (@step blank_title_host Load (boot blank_title_stored))
  /\ todos (st (@step blank_title_host Load (boot blank_title_stored)))
     = [blank_title_record]
  /\ prop_get blank_title_record k_title = VStr []
  /\ ~ titles_ok (st (@step blank_title_host Load (boot blank_title_stored))).
Proof.
  assert (T : todos (st (@step blank_title_host Load (boot blank_title_stored)))
              = [blank_title_record])
    by (vm_compute; reflexivity).
  split; [apply reach_step, reach_boot|].
  split; [exact T|]. split; [vm_compute; reflexivity|].
  unfold titles_ok; rewrite T; intros H.
  inversion H as [|? ? Hb _]; vm_compute in Hb; discriminate.
Qed.

Lemma titles_ok_when_stored_ok_witness :
  @reachable_clean three_host
    (@step three_host (AddTodo (lit "d") 3000 (padded_title 3))
       (@step three_host Load (boot three_stored)))
  /\ titles_ok
       (st (@step three_host (AddTodo (lit "d") 3000 (padded_title 3))
              (@step three_host Load (boot three_stored)))).
Proof.
  assert (R : @reachable_clean three_host
                (@step three_host (AddTodo (lit "d") 3000 (padded_title 3))
                   (@step three_host Load (boot three_stored)))).
  { apply clean_step; [|discriminate].
    apply clean_load; [apply clean_boot|].
    intros text elems L P.
    vm_compute in L; injection L as <-.
    vm_compute in P; injection P as <-.
    repeat constructor. }
  split; [exact R|].
  exact (@titles_ok_when_stored_ok three_host _ R).
Defined.

Lemma create_postcondition_witness :
  trimTitle (padded_title 3) <> []
  /\ (List.length (trimTitle (padded_title 3)) <= 500)%nat
  /\ exists newState w',
       @addTodo plain_host (lit "b") 2000 (padded_title 3) one_item_world
       = (Normal (Some newState), w')
       /\ st w' = newState
       /\ todos newState =
          [ (k_id, VStr (lit "b"));
            (k_title, VStr (trimTitle (padded_title 3)));
            (k_completed, VBool false); (k_createdAt, VNum 2000) ]
          :: todos (st one_item_world)
       /\ currentFilter newState = currentFilter (st one_item_world).
Proof.
  assert (H1 : trimTitle (padded_title 3) <> [])
    by (vm_compute; discriminate).
  assert (H2 : (List.length (trimTitle (padded_title 3)) <= 500)%nat)
    by (vm_compute; lia).
  split; [exact H1|]. split; [exact H2|].
  exact (@create_postcondition plain_host (lit "b") 2000 (padded_title 3)
           one_item_world H1 H2).
Defined.

Lemma title_length_boundary_witness :
  List.length (trimTitle (padded_title 500)) = 500%nat
  /\ (exists t, In t (todos (st one_item_world)) /\ has_id (lit "a") t = true)
  /\ (exists newState w',
        @addTodo plain_host (lit "b") 2000 (padded_title 500) one_item_world
        = (Normal (Some newState), w')
        /\ st w' = newState)
  /\ (exists newState w',
        @editTodo plain_host (lit "a") (padded_title 500) one_item_world
        = (Normal (Some newState), w')
        /\ st w' = newState)
  /\ List.length (trimTitle (padded_title 501)) = 501%nat
  /\ @addTodo plain_host (lit "b") 2000 (padded_title 501) one_item_world
     = (Normal None, one_item_world)
  /\ @editTodo plain_host (lit "a") (padded_title 501) one_item_world
     = (Normal None, one_item_world).
Proof.
  assert (L500 : List.length (trimTitle (padded_title 500)) = 500%nat)
    by (vm_compute; reflexivity).
  assert (L501 : List.length (trimTitle (padded_title 501)) = 501%nat)
    by (vm_compute; reflexivity).
  assert (Hid : exists t, In t (todos (st one_item_world))
                          /\ has_id (lit "a") t = true).
  { exists (item "a" "Buy milk" false 1000); split;
      [left; reflexivity | vm_compute; reflexivity]. }
  destruct (@title_length_boundary plain_host (lit "b") 2000 (lit "a")
              (padded_title 500) one_item_world) as [[Hadd Hedit] _];
    [exact L500|].
  destruct (@title_length_boundary plain_host (lit "b") 2000 (lit "a")
              (padded_title 501) one_item_world) as [_ Hrej].
  destruct (Hrej L501) as [Radd Redit].
  repeat split; auto.
Defined.

(** C5, as stated, fails: both stored records are objects with a string
    [id] and a string [title], and 'completed' is stored as the filter, yet
    comparing the two faults on their [createdAt]; [load] catches the fault
    and leaves no item and the filter 'all'. *)
Lemma load_resets_on_faulty_createdAt :
  lookup STORAGE_KEY faulty_stored = Some faulty_text
  /\ lookup FILTER_KEY faulty_stored = Some f_completed
  /\ @JSON_parse faulty_host faulty_text = Some (VArr faulty_records)
  /\ survivors faulty_records
     = [ faulty_record "a" "Buy milk"; faulty_record "b" "Walk dog" ]
  /\ @by_createdAt faulty_host (faulty_record "a" "Buy milk")
       (faulty_record "b" "Walk dog") = Throw TypeError
  /\ @load faulty_host (boot faulty_stored)
     = (Normal tt, @loaded faulty_host (boot faulty_stored))
  /\ todos (st (@loaded faulty_host (boot faulty_stored))) = []
  /\ currentFilter (st (@loaded faulty_host (boot faulty_stored))) = f_all.
Proof. repeat split; vm_compute; reflexivity. Qed.

Lemma load_array_postcondition_witness :
  @JSON_parse three_host [] = None
  /\ lookup STORAGE_KEY three_stored = Some three_text
  /\ @JSON_parse three_host three_text = Some (VArr three_records)
  /\ ((List.length (survivors three_records) < 2)%nat
      \/ Forall (@faultless three_host) (survivors three_records))
  /\ Forall (@converts three_host) (survivors three_records)
  /\ exists w',
       @load three_host (boot three_stored) = (Normal tt, w')
       /\ Permutation (todos (st w')) (survivors three_records)
       /\ StronglySorted (@larger_or_same three_host) (todos (st w'))
       /\ currentFilter (st w') = f_completed.
Proof.
  assert (P0 : @JSON_parse three_host [] = None) by reflexivity.
  assert (L : lookup STORAGE_KEY three_stored = Some three_text)
    by (vm_compute; reflexivity).
  assert (P : @JSON_parse three_host three_text = Some (VArr three_records))
    by (vm_compute; reflexivity).
  assert (C : Forall (@converts three_host) (survivors three_records)).
  { repeat constructor;
      [exists 1000 | exists 2000 | exists 1500]; vm_compute; reflexivity. }
  assert (NF : (List.length (survivors three_records) < 2)%nat
               \/ Forall (@faultless three_host) (survivors three_records)).
  { right; repeat constructor; intros e H; vm_compute in H; discriminate. }
  assert (F : lookup FILTER_KEY three_stored = Some f_completed)
    by (vm_compute; reflexivity).
  destruct (@load_array_postcondition three_host three_stored three_text
              three_records P0 L P NF)
    as (w' & E & _ & Perm & Srt & Fok & _).
  repeat (split; [assumption|]).
  exists w'; repeat split; auto.
Defined.

(** Records whose [createdAt] are texts of digits come out of [load] in the
    order of the numbers they spell. *)
Example load_orders_digit_texts :
  List.map (fun t => prop_get t k_createdAt)
    (todos (st (@loaded digits_host (boot digits_stored))))
  = [ VStr (lit "2000"); VStr (lit "1500"); VStr (lit "1000") ].
Proof. vm_compute; reflexivity. Qed.

(** A [createdAt] that is no number makes the comparator give NaN; an
    engine that then leaves the array as it stood hands back the stored
    order, the record of 1000 ahead of the record of 2000. *)
Example load_order_with_undated_record :
  @by_createdAt undated_host (item "a" "Old" false 1000) undated_record
  = Normal None
  /\ List.map (fun t => prop_get t k_id)
       (todos (st (@loaded undated_host (boot undated_stored))))
     = [ VStr (lit "a"); VStr (lit "b"); VStr (lit "c") ].
Proof. split; vm_compute; reflexivity. Qed.

(** C6, as stated, fails: the empty string fails to parse, yet [load] does
    not try to parse it; with 'completed' stored as the filter the state
    after [load] from the empty default has that filter, not 'all'. *)
Lemma empty_text_keeps_stored_filter :
  lookup STORAGE_KEY empty_text_stored = Some []
  /\ @JSON_parse plain_host [] = None
  /\ @load plain_host (boot empty_text_stored)
     = (Normal tt, @loaded plain_host (boot empty_text_stored))
  /\ st (@loaded plain_host (boot empty_text_stored))
     = {| todos := []; currentFilter := f_completed |}
  /\ st (@loaded plain_host (boot empty_text_stored)) <> initial_state.
Proof.
  assert (S : st (@loaded plain_host (boot empty_text_stored))
              = {| todos := []; currentFilter := f_completed |})
    by (vm_compute; reflexivity).
  repeat split; try (vm_compute; reflexivity); try exact S.
  rewrite S; intros E; vm_compute in E; discriminate.
Qed.

Lemma load_corrupt_resets_witness :
  lookup STORAGE_KEY corrupt_stored = Some (lit "not valid json{{{")
  /\ lit "not valid json{{{" <> []
  /\ @JSON_parse plain_host (lit "not valid json{{{") = None
  /\ exists w',
       @load plain_host (boot corrupt_stored) = (Normal tt, w')
       /\ st w' = initial_state.
Proof.
  assert (L : lookup STORAGE_KEY corrupt_stored
              = Some (lit "not valid json{{{"))
    by (vm_compute; reflexivity).
  assert (N : lit "not valid json{{{" <> []) by (vm_compute; discriminate).
  assert (P : @JSON_parse plain_host (lit "not valid json{{{") = None)
    by (vm_compute; reflexivity).
  repeat (split; [assumption|]).
  exact (@load_corrupt_resets plain_host corrupt_stored _ L N P).
Defined.

Lemma failed_write_is_silent_witness :
  @write_fails full_host one_item_world one_item_done
  /\ (exists w',
        @save full_host one_item_done one_item_world = (Normal tt, w')
        /\ st w' = one_item_done)
  /\ (exists w',
        @run full_host (ToggleTodo (lit "a")) one_item_world
        = (Normal (NewState one_item_done), w')
        /\ st w' = one_item_done).
Proof.
  assert (F : @write_fails full_host one_item_world one_item_done)
    by (left; reflexivity).
  destruct (@failed_write_is_silent full_host one_item_world one_item_done F)
    as [S C].
  split; [exact F|]. split; [exact S|].
  apply C; vm_compute; reflexivity.
Defined.

(** C8, as stated, fails: [load] keeps a stored record that has no
    [completed] property; two accepted [toggleTodo] calls on its id leave
    the record with [completed] false, where the original had none. *)
Lemma toggle_twice_writes_absent_flag :
  @reachable bare_host (@step bare_host Load (boot bare_stored))
  /\ todos (st (@step bare_host Load (boot bare_stored))) = [bare_record]
  /\ prop_get bare_record k_completed = VUndef
  /\ exists s1 w1 s2 w2,
       @toggleTodo bare_host (lit "a") (@step bare_host Load (boot bare_stored))
       = (Normal (Some s1), w1)
       /\ @toggleTodo bare_host (lit "a") w1 = (Normal (Some s2), w2)
       /\ todos s2 = [bare_record_toggled]
       /\ prop_get bare_record_toggled k_completed = VBool false
       /\ prop_get bare_record_toggled k_completed
          <> prop_get bare_record k_completed.
Proof.
  split; [apply reach_step, reach_boot|].
  split; [vm_compute; reflexivity|].
  split; [vm_compute; reflexivity|].
  eexists _, _, _, _.
  split; [vm_compute; reflexivity|].
  split; [vm_compute; reflexivity|].
  split; [vm_compute; reflexivity|].
  split; [vm_compute; reflexivity|].
  vm_compute; discriminate.
Qed.

Lemma toggle_twice_witness :
  (exists t, In t (todos (st one_item_world)) /\ has_id (lit "a") t = true)
  /\ exists s1 w1 s2 w2,
       @toggleTodo plain_host (lit "a") one_item_world = (Normal (Some s1), w1)
       /\ @toggleTodo plain_host (lit "a") w1 = (Normal (Some s2), w2)
       /\ st w2 = s2
       /\ nth_error (todos s2) 0 = Some (item "a" "Buy milk" false 1000).
Proof.
  assert (Hid : exists t, In t (todos (st one_item_world))
                          /\ has_id (lit "a") t = true).
  { exists (item "a" "Buy milk" false 1000); split;
      [left; reflexivity | vm_compute; reflexivity]. }
  split; [exact Hid|].
  destruct (@toggle_twice plain_host (lit "a") one_item_world Hid)
    as (s1 & w1 & s2 & w2 & E1 & E2 & S & _ & _ & Nth).
  exists s1, w1, s2, w2; repeat (split; [assumption|]).
  destruct (Nth 0%nat (item "a" "Buy milk" false 1000) eq_refl)
    as (t' & Ht' & _ & _ & _ & Hb & _).
  rewrite Ht'; f_equal. apply (Hb false); reflexivity.
Defined.

Lemma non_string_title_rejected_witness :
  is_string VNull = false
  /\ trimTitle VNull = []
  /\ @addTodo plain_host (lit "b") 2000 VNull one_item_world
     = (Normal None, one_item_world)
  /\ @editTodo plain_host (lit "a") VNull one_item_world
     = (Normal None, one_item_world).
Proof.
  split; [reflexivity|].
  exact (@non_string_title_rejected plain_host (lit "b") 2000 (lit "a")
           VNull one_item_world eq_refl).
Defined.

(** * Further properties of the model layer *)

(** ** Trimming *)

Lemma drop_white_split (s : jsstring) :
  exists p, s = p ++ drop_white s /\ Forall (fun c => is_white c = true) p.
Proof.
  induction s as [|c s (p & E & W)]; simpl.
  - exists []; split; [reflexivity | constructor].
  - destruct (is_white c) eqn:C.
    + exists (c :: p); split; [simpl; rewrite <- E; reflexivity|].
      constructor; assumption.
    + exists []; split; [reflexivity | constructor].
Qed.

(** X1. [trimTitle] on a string cuts white space off both ends and nothing
    else: the string is a white prefix, the result, and a white suffix, and
    the result neither starts nor ends with white space; so trimming the
    result again gives the result. *)
Theorem trimTitle_cuts_both_ends (s : jsstring) :
  (exists before after,
     s = before ++ trimTitle (VStr s) ++ after
     /\ Forall (fun c => is_white c = true) before
     /\ Forall (fun c => is_white c = true) after)
  /\ starts_black (trimTitle (VStr s))
  /\ ends_black (trimTitle (VStr s))
  /\ trimTitle (VStr (trimTitle (VStr s))) = trimTitle (VStr s).
Proof.
  cbn [trimTitle]; split; [|split; [|split]].
  - destruct (drop_white_split s) as (p & Ep & Wp).
    destruct (drop_white_split (rev (drop_white s))) as (q & Eq & Wq).
    exists p, (rev q); split; [|split].
    + unfold trim. rewrite Ep at 1; f_equal.
      rewrite <- rev_app_distr, <- Eq, rev_involutive; reflexivity.
    + exact Wp.
    + apply Forall_rev; exact Wq.
  - apply trim_black.
  - apply trim_black.
  - apply trim_idempotent.
Qed.

(** ** Counting and viewing *)

Lemma filter_lengths {A} (p : A -> bool) (l : list A) :
  (List.length (List.filter (fun t => negb (p t)) l)
   + List.length (List.filter p l))%nat = List.length l.
Proof.
  rewrite <- length_app. apply Permutation_length, filter_split.
Qed.

(** X2. The two counts add up to the size of the collection, and each is the
    size of the view under the filter of that name; neither count depends
    on the filter in force. *)
Theorem counts_match_views (items : list obj) (f : jsstring) :
  let s := {| todos := items; currentFilter := f |} in
  let view g := getFilteredTodos {| todos := items; currentFilter := g |} in
  (getActiveCount s + getCompletedCount s)%nat = List.length items
  /\ List.length (view f_active) = getActiveCount s
  /\ List.length (view f_completed) = getCompletedCount s
  /\ List.length (view f_all) = List.length items.
Proof.
  cbn zeta; split; [|repeat split].
  unfold getActiveCount, getCompletedCount; cbn [todos].
  apply (filter_lengths completed_flag).
Qed.

Section Further.
Context {host : Host}.

(** ** What every reachable state looks like *)

Lemma loaded_cases (w : world) :
  st (loaded w) = {| todos := todos (st w); currentFilter := adopted_filter w |}
  \/ st (loaded w) = initial_state
  \/ exists elems sorted,
       Permutation sorted (survivors elems)
       /\ st (loaded w) = {| todos := sorted;
                             currentFilter := adopted_filter w |}.
Proof.
  destruct (lookup STORAGE_KEY (disk w)) as [[|c text]|] eqn:L.
  - left; apply load_absent; auto.
  - destruct (JSON_parse (c :: text)) as [v|] eqn:P.
    + assert (A : (exists elems, v = VArr elems)
                  \/ (forall elems, v <> VArr elems)).
      { destruct v; try (right; discriminate). left; eauto. }
      destruct A as [[elems ->]|A].
      * destruct (sort by_createdAt engine_order (survivors elems))
          as [sorted|e] eqn:S.
        -- right; right; exists elems, sorted; split.
           ++ apply (sort_perm _ _ engine_order_perm _ _ S).
           ++ apply (load_array w _ elems sorted L);
                [discriminate | exact P | exact S].
        -- right; left.
           apply (load_array_throws w _ elems e L);
             [discriminate | exact P | exact S].
      * left. apply (load_not_array w _ v L); [discriminate | exact P | exact A].
    + right; left. apply (load_unparseable w _ L); [discriminate | exact P].
  - left; apply load_absent; auto.
Qed.

Lemma adopted_filter_valid (w : world) :
  valid_filter (currentFilter (st w)) = true ->
  valid_filter (adopted_filter w) = true.
Proof.
  intros H; unfold adopted_filter.
  destruct (lookup FILTER_KEY (disk w)) as [f|]; [|exact H].
  destruct (valid_filter f) eqn:V; [exact V | exact H].
Qed.

Lemma shaped_set_completed (v : value) (t : obj) :
  shaped (prop_set k_completed v t) = shaped t.
Proof.
  unfold shaped; rewrite !prop_get_set_other; [reflexivity| |];
    intros E; vm_compute in E; discriminate.
Qed.

Lemma shaped_set_title (x : jsstring) (t : obj) :
  shaped t = true -> shaped (prop_set k_title (VStr x) t) = true.
Proof.
  unfold shaped; intros H; apply andb_true_iff in H as [Hi _].
  rewrite prop_get_set_same, prop_get_set_other, Hi; [reflexivity|].
  intros E; vm_compute in E; discriminate.
Qed.

Lemma survivors_shaped (elems : list value) :
  Forall (fun t => shaped t = true) (survivors elems).
Proof.
  rewrite Forall_forall; intros o Ho.
  apply survivors_In in Ho as (_ & Hi & Ht).
  unfold shaped; rewrite Hi, Ht; reflexivity.
Qed.

Lemma step_shape_ok (c : call) (w : world) :
  shape_ok (st w) -> shape_ok (st (step c w)).
Proof.
  unfold shape_ok, step; intros [Hs Hf].
  destruct c; unfold run, bind;
    rewrite ?load_eq, ?addTodo_eq, ?toggleTodo_eq, ?deleteTodo_eq,
      ?editTodo_eq, ?setFilter_eq, ?clearCompleted_eq;
    unfold get_state, ret; cbn [fst snd]; auto.
  - destruct (loaded_cases w) as [E|[E|(elems & sorted & Perm & E)]];
      rewrite E; cbn.
    + split; [exact Hs | apply adopted_filter_valid; exact Hf].
    + split; [constructor | reflexivity].
    + split; [|apply adopted_filter_valid; exact Hf].
      rewrite Forall_forall; intros t Ht.
      apply (Permutation_in _ Perm) in Ht.
      pose proof (survivors_shaped elems) as K.
      rewrite Forall_forall in K; auto.
  - destruct (title_refused title); cbn; [auto|].
    rewrite saved_st; cbn; split; [|exact Hf].
    constructor; [reflexivity | exact Hs].
  - destruct (findIndex _ _); cbn; [|auto].
    rewrite saved_st; cbn; split; [|exact Hf].
    apply Forall_map_same; [|exact Hs].
    intros t Ht; destruct (has_id id t);
      [rewrite shaped_set_completed|]; exact Ht.
  - destruct (findIndex _ _); cbn; [|auto].
    rewrite saved_st; cbn; split; [|exact Hf].
    apply Forall_filter; exact Hs.
  - destruct (title_refused newTitle); cbn; [auto|].
    destruct (findIndex _ _); cbn; [|auto].
    rewrite saved_st; cbn; split; [|exact Hf].
    apply Forall_map_same; [|exact Hs].
    intros t Ht; destruct (has_id id t); [|exact Ht].
    apply shaped_set_title; exact Ht.
  - destruct filterType; cbn; auto.
    destruct (valid_filter s) eqn:V; cbn; [|auto].
    rewrite saved_st; cbn; auto.
  - cbn; rewrite saved_st; cbn; split; [|exact Hf].
    apply Forall_filter; exact Hs.
Qed.

(** X3. Whatever is stored and whatever is called, [load] included, every
    item the model holds has a string [id] and a string [title], and the
    current filter is 'all', 'active' or 'completed'. *)
Theorem reachable_shape_ok (w : world) :
  reachable w ->
  (forall t, In t (todos (st w)) ->
     exists id title,
       prop_get t k_id = VStr id /\ prop_get t k_title = VStr title)
  /\ (currentFilter (st w) = f_all
      \/ currentFilter (st w) = f_active
      \/ currentFilter (st w) = f_completed).
Proof.
  intros R.
  assert (S : shape_ok (st w)).
  { induction R as [stored | c w R IH].
    - split; [constructor | reflexivity].
    - apply step_shape_ok; exact IH. }
  destruct S as [Hs Hf]; split.
  - intros t Ht; rewrite Forall_forall in Hs.
    specialize (Hs t Ht); unfold shaped in Hs.
    apply andb_true_iff in Hs as [Hi Htl].
    destruct (prop_get t k_id); try discriminate.
    destruct (prop_get t k_title); try discriminate.
    eauto.
  - apply valid_filter_iff; exact Hf.
Qed.

(** ** Ids *)

Lemma has_id_iff (id : jsstring) (t : obj) :
  has_id id t = true <-> prop_get t k_id = VStr id.
Proof.
  unfold has_id; destruct (prop_get t k_id); split; try discriminate.
  - intros H; apply str_eqb_eq in H; congruence.
  - intros H; injection H as ->; apply str_eqb_refl.
Qed.

Lemma NoDup_map_filter {A B} (g : A -> B) (p : A -> bool) (l : list A) :
  NoDup (List.map g l) -> NoDup (List.map g (List.filter p l)).
Proof.
  induction l as [|x l IH]; simpl; intros H; [constructor|].
  inversion H as [|? ? Hx Hl]; subst.
  destruct (p x); simpl; [|auto].
  constructor; [|auto].
  intros Hin; apply Hx.
  apply in_map_iff in Hin as (y & E & Hy).
  apply filter_In in Hy as [Hy _].
  apply in_map_iff; eauto.
Qed.

Lemma map_id_map (f : obj -> obj) (l : list obj) :
  (forall t, prop_get (f t) k_id = prop_get t k_id) ->
  List.map (fun t => prop_get t k_id) (List.map f l)
  = List.map (fun t => prop_get t k_id) l.
Proof.
  intros Hf; rewrite map_map; apply map_ext; exact Hf.
Qed.

(** X4. A mutation keeps the ids pairwise distinct when they were, provided
    the id that [generateId] hands to [addTodo] is not yet among them. *)
Theorem ids_stay_distinct (c : call) (w : world) :
  c <> Load ->
  NoDup (ids (st w)) ->
  brings_fresh_id c (st w) ->
  NoDup (ids (st (step c w))).
Proof.
  unfold step, ids; intros Hc H F.
  destruct c; try congruence; unfold run, bind;
    rewrite ?addTodo_eq, ?toggleTodo_eq, ?deleteTodo_eq,
      ?editTodo_eq, ?setFilter_eq, ?clearCompleted_eq;
    unfold get_state, ret; cbn [fst snd]; auto.
  - destruct (title_refused title); cbn; [exact H|].
    rewrite saved_st; cbn. constructor; [exact F | exact H].
  - destruct (findIndex _ _); cbn; [|exact H].
    rewrite saved_st; cbn. rewrite map_id_map; [exact H|].
    intros t; destruct (has_id id t); [|reflexivity].
    apply prop_get_set_other; intros E; vm_compute in E; discriminate.
  - destruct (findIndex _ _); cbn; [|exact H].
    rewrite saved_st; cbn. apply NoDup_map_filter; exact H.
  - destruct (title_refused newTitle); cbn; [exact H|].
    destruct (findIndex _ _); cbn; [|exact H].
    rewrite saved_st; cbn. rewrite map_id_map; [exact H|].
    intros t; destruct (has_id id t); [|reflexivity].
    apply prop_get_set_other; intros E; vm_compute in E; discriminate.
  - destruct filterType; cbn; auto.
    destruct (valid_filter s); cbn; [|exact H].
    rewrite saved_st; exact H.
  - cbn; rewrite saved_st; cbn. apply NoDup_map_filter; exact H.
Qed.

(** ** Deleting *)

Lemma findIndex_None {A} (p : A -> bool) (l : list A) :
  findIndex p l = None <-> forall t, In t l -> p t = false.
Proof.
  split.
  - intros H t Ht; destruct (p t) eqn:E; [|reflexivity].
    exfalso; apply (proj1 (findIndex_Some p l)); eauto.
  - intros H; destruct (findIndex p l) eqn:F; [|reflexivity].
    destruct (proj2 (findIndex_Some p l)) as (t & Ht & Pt);
      [congruence|].
    rewrite (H t Ht) in Pt; discriminate.
Qed.

Lemma one_less (id : jsstring) (l : list obj) :
  NoDup (List.map (fun t => prop_get t k_id) l) ->
  (exists t, In t l /\ has_id id t = true) ->
  S (List.length (List.filter (fun t => negb (has_id id t)) l))
  = List.length l.
Proof.
  induction l as [|x l IH]; simpl; intros N (t & Ht & Hid); [contradiction|].
  inversion N as [|? ? Nx Nl]; subst.
  destruct (has_id id x) eqn:X; simpl.
  - f_equal. clear IH.
    assert (K : forall y, In y l -> has_id id y = false).
    { intros y Hy; destruct (has_id id y) eqn:Y; [|reflexivity].
      exfalso; apply Nx. apply has_id_iff in X, Y.
      apply in_map_iff; exists y; split; [congruence | exact Hy]. }
    clear - K; induction l as [|y l IH]; simpl; [reflexivity|].
    rewrite (K y (or_introl eq_refl)); simpl; f_equal.
    apply IH; intros z Hz; apply K; right; exact Hz.
  - f_equal; apply IH; [exact Nl|].
    destruct Ht as [->|Ht]; [congruence | eauto].
Qed.

(** X5. [deleteTodo] of an id that some item carries is accepted; the
    collection it leaves is the old one filtered, so in its order, down to
    the items of another id, under the same filter; a second [deleteTodo]
    of the id is rejected; and where the ids were pairwise distinct exactly
    one item is gone. *)
Theorem delete_postcondition (id : jsstring) (w : world) :
  (exists t, In t (todos (st w)) /\ has_id id t = true) ->
  exists newState w',
    deleteTodo id w = (Normal (Some newState), w')
    /\ st w' = newState
    /\ currentFilter newState = currentFilter (st w)
    /\ (forall t, In t (todos newState) <->
                  In t (todos (st w)) /\ has_id id t = false)
    /\ deleteTodo id w' = (Normal None, w')
    /\ (NoDup (ids (st w)) ->
        S (List.length (todos newState)) = List.length (todos (st w)))
    /\ todos newState
       = List.filter (fun t => negb (has_id id t)) (todos (st w)).
Proof.
  intros Hid; pose proof Hid as Hf; apply findIndex_Some in Hf.
  set (ns := {| todos :=
                  List.filter (fun t => negb (has_id id t)) (todos (st w));
                currentFilter := currentFilter (st w) |}).
  assert (N : findIndex (has_id id) (todos ns) = None).
  { apply findIndex_None; intros t Ht.
    apply filter_In in Ht as [_ Ht]; apply negb_true_iff in Ht; exact Ht. }
  exists ns, (saved ns w);
    split; [|split; [|split; [|split; [|split; [|split]]]]].
  - rewrite deleteTodo_eq.
    destruct (findIndex _ _); [reflexivity | congruence].
  - apply saved_st.
  - reflexivity.
  - intros t; cbn; rewrite filter_In, negb_true_iff; tauto.
  - rewrite deleteTodo_eq, saved_st, N; reflexivity.
  - intros D; apply one_less; assumption.
  - reflexivity.
Qed.


(** ** Clearing *)

Lemma filter_twice {A} (p : A -> bool) (l : list A) :
  List.filter p (List.filter p l) = List.filter p l.
Proof.
  induction l as [|x l IH]; simpl; [reflexivity|].
  destruct (p x) eqn:E; simpl; [rewrite E, IH|]; auto.
Qed.

Lemma filter_none {A} (p : A -> bool) (l : list A) :
  List.filter p (List.filter (fun t => negb (p t)) l) = [].
Proof.
  induction l as [|x l IH]; simpl; [reflexivity|].
  destruct (p x) eqn:E; simpl; [|rewrite E]; auto.
Qed.

(** X6. [clearCompleted] is always accepted, on an empty collection too.  It
    leaves, in order and under the same filter, exactly the items that were
    not completed: the completed count is then 0 and the active count is
    what it was.  Called again at once it returns the same state. *)
Theorem clearCompleted_postcondition (w : world) :
  exists newState w' w'',
    clearCompleted w = (Normal newState, w')
    /\ st w' = newState
    /\ currentFilter newState = currentFilter (st w)
    /\ (forall t, In t (todos newState) <->
                  In t (todos (st w)) /\ completed_flag t = false)
    /\ getCompletedCount newState = 0%nat
    /\ getActiveCount newState = getActiveCount (st w)
    /\ clearCompleted w' = (Normal newState, w'')
    /\ st w'' = newState.
Proof.
  set (ns := {| todos :=
                  List.filter (fun t => negb (completed_flag t))
                    (todos (st w));
                currentFilter := currentFilter (st w) |}).
  assert (I : {| todos :=
                   List.filter (fun t => negb (completed_flag t)) (todos ns);
                 currentFilter := currentFilter ns |} = ns).
  { unfold ns; cbn [todos currentFilter].
    rewrite (filter_twice (fun t => negb (completed_flag t))); reflexivity. }
  exists ns, (saved ns w), (saved ns (saved ns w)).
  split; [rewrite clearCompleted_eq; reflexivity|].
  split; [apply saved_st|]. split; [reflexivity|].
  split; [|split; [|split; [|split]]].
  - intros t; cbn; rewrite filter_In, negb_true_iff; tauto.
  - unfold getCompletedCount; cbn [todos ns].
    rewrite (filter_none completed_flag); reflexivity.
  - unfold getActiveCount; cbn [todos ns].
    rewrite (filter_twice (fun t => negb (completed_flag t))); reflexivity.
  - rewrite clearCompleted_eq, saved_st; cbn zeta. rewrite I; reflexivity.
  - apply saved_st.
Qed.

(** ** Toggling and editing, item by item *)

(** X7. One accepted [toggleTodo]: the collection keeps its length, its order
    and its filter; an item with another id is untouched; an item with the
    id has [completed] set to the boolean opposite of how its flag read,
    and every other property (id, title, createdAt, ...) as before. *)
Theorem toggle_postcondition (id : jsstring) (w : world) :
  (exists t, In t (todos (st w)) /\ has_id id t = true) ->
  exists newState w',
    toggleTodo id w = (Normal (Some newState), w')
    /\ st w' = newState
    /\ currentFilter newState = currentFilter (st w)
    /\ List.length (todos newState) = List.length (todos (st w))
    /\ forall i t,
         nth_error (todos (st w)) i = Some t ->
         exists t',
           nth_error (todos newState) i = Some t'
           /\ (has_id id t = false -> t' = t)
           /\ (has_id id t = true ->
               prop_get t' k_completed = VBool (negb (completed_flag t))
               /\ forall k, k <> k_completed ->
                            prop_get t' k = prop_get t k).
Proof.
  intros Hid; apply findIndex_Some in Hid.
  eexists _, _; rewrite toggleTodo_eq.
  destruct (findIndex _ _); [|congruence]. cbn zeta.
  split; [reflexivity|]. rewrite saved_st; cbn.
  split; [reflexivity|]. split; [reflexivity|].
  split; [apply length_map|].
  intros i t Hi; rewrite nth_error_map, Hi; cbn.
  eexists; split; [reflexivity|].
  destruct (has_id id t); split; try discriminate; auto.
  intros _; split; [apply prop_get_set_same|].
  intros k Hk; apply prop_get_set_other; exact Hk.
Qed.

(** X8. One accepted [editTodo]: the collection keeps its length, its order
    and its filter; an item with another id is untouched; an item with the
    id has the trimmed text as [title] and every other property (id,
    completed, createdAt, ...) as before. *)
Theorem edit_postcondition (id : jsstring) (newTitle : value) (w : world) :
  trimTitle newTitle <> [] ->
  (List.length (trimTitle newTitle) <= 500)%nat ->
  (exists t, In t (todos (st w)) /\ has_id id t = true) ->
  exists newState w',
    editTodo id newTitle w = (Normal (Some newState), w')
    /\ st w' = newState
    /\ currentFilter newState = currentFilter (st w)
    /\ List.length (todos newState) = List.length (todos (st w))
    /\ forall i t,
         nth_error (todos (st w)) i = Some t ->
         exists t',
           nth_error (todos newState) i = Some t'
           /\ (has_id id t = false -> t' = t)
           /\ (has_id id t = true ->
               prop_get t' k_title = VStr (trimTitle newTitle)
               /\ forall k, k <> k_title -> prop_get t' k = prop_get t k).
Proof.
  intros Hne Hlen Hid; apply findIndex_Some in Hid.
  assert (R : title_refused newTitle = false)
    by (apply title_refused_false; auto).
  eexists _, _; rewrite editTodo_eq, R.
  destruct (findIndex _ _); [|congruence]. cbn zeta.
  split; [reflexivity|]. rewrite saved_st; cbn.
  split; [reflexivity|]. split; [reflexivity|].
  split; [apply length_map|].
  intros i t Hi; rewrite nth_error_map, Hi; cbn.
  eexists; split; [reflexivity|].
  destruct (has_id id t); split; try discriminate; auto.
  intros _; split; [apply prop_get_set_same|].
  intros k Hk; apply prop_get_set_other; exact Hk.
Qed.

(** ** A new item and the view *)

(** X9. After an accepted [addTodo] the view shows the new item first when the
    filter is 'all' or 'active', and does not show it at all when the
    filter is 'completed': the view is then what it was. *)
Theorem added_item_in_view (uuid : jsstring) (now : Z) (title : value)
    (w : world) :
  trimTitle title <> [] ->
  (List.length (trimTitle title) <= 500)%nat ->
  exists newState w' t,
    addTodo uuid now title w = (Normal (Some newState), w')
    /\ todos newState = t :: todos (st w)
    /\ (currentFilter (st w) = f_completed ->
        getFilteredTodos newState = getFilteredTodos (st w))
    /\ (currentFilter (st w) = f_all \/ currentFilter (st w) = f_active ->
        getFilteredTodos newState = t :: getFilteredTodos (st w)).
Proof.
  intros Hne Hlen.
  assert (R : title_refused title = false)
    by (apply title_refused_false; auto).
  eexists _, _, _; rewrite addTodo_eq, R.
  split; [reflexivity|]. split; [reflexivity|].
  unfold getFilteredTodos, added; cbn [todos currentFilter].
  split.
  - intros ->.
    change (str_eqb f_completed f_active) with false.
    change (str_eqb f_completed f_completed) with true.
    reflexivity.
  - intros [-> | ->].
    + change (str_eqb f_all f_active) with false.
      change (str_eqb f_all f_completed) with false.
      reflexivity.
    + change (str_eqb f_active f_active) with true.
      reflexivity.
Qed.


(** ** What [save] writes *)

(** X10. When the storage takes both writes, [save] leaves the text of the
    todos under the todos key and the filter under the filter key, written
    in that order. *)
Theorem save_persists_both (newState : state) (w : world) :
  storage_accepts (disk w) STORAGE_KEY (JSON_stringify (todos newState))
  = true ->
  storage_accepts
    ((STORAGE_KEY, JSON_stringify (todos newState)) :: disk w)
    FILTER_KEY (currentFilter newState) = true ->
  lookup STORAGE_KEY (disk (saved newState w))
  = Some (JSON_stringify (todos newState))
  /\ lookup FILTER_KEY (disk (saved newState w))
     = Some (currentFilter newState)
  /\ trace (saved newState w)
     = EvSetItem FILTER_KEY (currentFilter newState)
         :: EvSetItem STORAGE_KEY (JSON_stringify (todos newState))
         :: trace w.
Proof.
  intros A1 A2.
  unfold saved, save, bind, try_catch, set_state, setItem, ret; cbn.
  rewrite A1; cbn. rewrite A2; cbn.
  rewrite !str_eqb_refl.
  change (str_eqb FILTER_KEY STORAGE_KEY) with false.
  repeat split.
Qed.

(** X11. When the storage refuses the write of the todos, [save] does not try
    to write the filter: one [setItem] was attempted, and the stored content
    is what it was. *)
Theorem save_stops_at_first_refusal (newState : state) (w : world) :
  storage_accepts (disk w) STORAGE_KEY (JSON_stringify (todos newState))
  = false ->
  st (saved newState w) = newState
  /\ disk (saved newState w) = disk w
  /\ trace (saved newState w)
     = EvSetItem STORAGE_KEY (JSON_stringify (todos newState)) :: trace w.
Proof.
  intros A1.
  unfold saved, save, bind, try_catch, set_state, setItem, ret; cbn.
  rewrite A1; cbn. repeat split.
Qed.

(** X12. When the storage takes the todos but refuses the filter, the todos
    are stored all the same while the stored filter stays the old one: the
    two keys can fall out of step with each other and with memory. *)
Theorem save_can_store_todos_alone (newState : state) (w : world) :
  storage_accepts (disk w) STORAGE_KEY (JSON_stringify (todos newState))
  = true ->
  storage_accepts
    ((STORAGE_KEY, JSON_stringify (todos newState)) :: disk w)
    FILTER_KEY (currentFilter newState) = false ->
  st (saved newState w) = newState
  /\ lookup STORAGE_KEY (disk (saved newState w))
     = Some (JSON_stringify (todos newState))
  /\ lookup FILTER_KEY (disk (saved newState w))
     = lookup FILTER_KEY (disk w).
Proof.
  intros A1 A2.
  unfold saved, save, bind, try_catch, set_state, setItem, ret; cbn.
  rewrite A1; cbn. rewrite A2; cbn.
  rewrite !str_eqb_refl.
  change (str_eqb STORAGE_KEY FILTER_KEY) with false.
  repeat split.
Qed.

(** ** What [load] reads *)

(** X13. Whatever the reads of the storage return or throw ([load_from]
    over any [read]), [load] completes normally and writes nothing: the
    stored content is what it was and the storage saw at most two calls,
    reads both.  Where the read of the todos throws there is no second read
    and memory is reset to the default state; where no read throws the two
    keys are read once each, todos first. *)
Theorem load_only_reads (read : reader) (w : world) :
  reads_only read ->
  exists w',
    load_from read w = (Normal tt, w')
    /\ disk w' = disk w
    /\ (exists calls,
          trace w' = calls ++ trace w
          /\ forallb is_read calls = true
          /\ (List.length calls <= 2)%nat)
    /\ (read_throws read w ->
        st w' = initial_state
        /\ trace w' = EvGetItem STORAGE_KEY :: trace w)
    /\ (read_returns read ->
        trace w' = EvGetItem FILTER_KEY :: EvGetItem STORAGE_KEY :: trace w).
Proof.
  intros R.
  unfold read_throws, read_returns.
  unfold load_from, try_catch, bind, parse, ret, throw, lift,
    set_todos, set_currentFilter.
  pose proof (R STORAGE_KEY w) as R1.
  destruct (read STORAGE_KEY w) as [c1 w1] eqn:E1; cbn [snd] in R1; subst w1.
  destruct c1 as [todosJson|e1].
  2: { cbn. eexists; split; [reflexivity|]; cbn.
       split; [reflexivity|].
       split; [exists [EvGetItem STORAGE_KEY]; repeat split; cbn; lia|].
       split; [intros _; split; reflexivity|].
       intros Hr; destruct (Hr STORAGE_KEY w) as [v Hv].
       rewrite E1 in Hv; discriminate. }
  match goal with
  | |- context [read FILTER_KEY ?w1] =>
      pose proof (R FILTER_KEY w1) as R2;
      pose proof (fun H : read_returns read => H FILTER_KEY w1) as T2;
      destruct (read FILTER_KEY w1) as [c2 w2] eqn:E2
  end.
  cbn [snd st disk trace] in R2; subst w2.
  unfold read_returns in T2.
  destruct c2 as [filter|e2].
  2: { cbn. eexists; split; [reflexivity|]; cbn.
       split; [reflexivity|].
       split; [exists [EvGetItem FILTER_KEY; EvGetItem STORAGE_KEY];
               repeat split; cbn; lia|].
       split; [intros [e He]; discriminate|].
       intros _; reflexivity. }
  assert (Shape : forall w',
            disk w' = disk w ->
            trace w' = EvGetItem FILTER_KEY :: EvGetItem STORAGE_KEY :: trace w ->
            disk w' = disk w
            /\ (exists calls,
                  trace w' = calls ++ trace w
                  /\ forallb is_read calls = true
                  /\ (List.length calls <= 2)%nat)
            /\ ((exists e, fst (Normal todosJson : completion _, w) = Throw e) ->
                st w' = initial_state
                /\ trace w' = EvGetItem STORAGE_KEY :: trace w)
            /\ ((forall k w0, exists v, fst (read k w0) = Normal v) ->
                trace w' = EvGetItem FILTER_KEY :: EvGetItem STORAGE_KEY
                             :: trace w)).
  { intros w' D T; split; [exact D|].
    split; [exists [EvGetItem FILTER_KEY; EvGetItem STORAGE_KEY];
            rewrite T; repeat split; cbn; lia|].
    split; [intros [e He]; discriminate | intros _; exact T]. }
  cbn [fst] in Shape |- *.
  destruct todosJson as [[|c text]|]; cbn.
  2: destruct (JSON_parse (c :: text)) as [[| | | | |elems|]|]; cbn;
       try destruct (sort by_createdAt engine_order (survivors elems)); cbn.
  all: destruct filter as [[|d f]|]; cbn;
    try destruct (valid_filter (d :: f)); cbn;
    (eexists; split; [reflexivity|]; apply Shape; reflexivity).
Qed.

(** X14. Stored todos that are missing, empty, or valid JSON but not an array
    (an object, a number, [null], ...) are passed over without a reset: the
    items in memory stay, and the stored filter is still adopted when it is
    one of the three, and the filter in memory stays otherwise. *)
Theorem load_passes_over_non_array (w : world) :
  lookup STORAGE_KEY (disk w) = None
  \/ lookup STORAGE_KEY (disk w) = Some []
  \/ (exists text v,
        lookup STORAGE_KEY (disk w) = Some text
        /\ JSON_parse text = Some v
        /\ forall elems, v <> VArr elems) ->
  exists w',
    load w = (Normal tt, w')
    /\ todos (st w') = todos (st w)
    /\ currentFilter (st w') =
       match lookup FILTER_KEY (disk w) with
       | Some f => if valid_filter f then f else currentFilter (st w)
       | None => currentFilter (st w)
       end.
Proof.
  intros H; exists (loaded w); rewrite load_eq; split; [reflexivity|].
  assert (E : st (loaded w)
              = {| todos := todos (st w);
                   currentFilter := adopted_filter w |}).
  { destruct H as [H|[H|(text & v & L & P & Hv)]].
    - apply load_absent; auto.
    - apply load_absent; auto.
    - destruct text as [|c text]; [apply load_absent; auto|].
      apply (load_not_array w _ v L); [discriminate | exact P | exact Hv]. }
  rewrite E; split; reflexivity.
Qed.


(** ** Order after [load] *)

Lemma not_after_key (a b : obj) :
  dated a -> dated b ->
  not_after by_createdAt a b = (key_of b <=? key_of a).
Proof.
  intros Ha Hb; unfold not_after; rewrite (by_createdAt_key a b Ha Hb).
  destruct (key_of b <=? key_of a) eqn:E.
  - apply Z.leb_le in E; apply Z.leb_le; lia.
  - apply Z.leb_gt in E; apply Z.leb_gt; lia.
Qed.

(** X15. [load] does not reorder records that were created at the same
    moment: where the kept records' [createdAt] are numbers or absent, the
    records of any one [createdAt] come out in the order they were stored
    in. *)
Theorem load_keeps_ties_in_order (w : world) (text : jsstring)
    (elems : list value) (k : Z) :
  lookup STORAGE_KEY (disk w) = Some text ->
  text <> [] ->
  JSON_parse text = Some (VArr elems) ->
  Forall dated (survivors elems) ->
  exists w',
    load w = (Normal tt, w')
    /\ with_key k (todos (st w')) = with_key k (survivors elems).
Proof.
  intros L Hne P D.
  destruct (sort_keyed by_createdAt engine_order dated key_of
              by_createdAt_key (survivors elems) D)
    as (r & S & _ & _ & K & _).
  exists (loaded w); rewrite load_eq.
  split; [reflexivity|].
  rewrite (load_array w text elems r L Hne P S); cbn [todos].
  apply K.
Qed.

(** ** Saving, then loading *)

Lemma survivors_of_shaped (l : list obj) :
  Forall (fun t => shaped t = true) l ->
  survivors (List.map VObj l) = l.
Proof.
  unfold survivors; induction 1 as [|x l Hx Hl IH]; [reflexivity|].
  cbn [List.map List.filter].
  change (well_shaped (VObj x)) with (shaped x); rewrite Hx.
  cbn [List.map as_obj]; f_equal; exact IH.
Qed.

(** X16. Persistence round trip: a state whose items have string ids and
    titles and whose filter is one of the three is saved over a storage
    that takes both writes; where [JSON.parse] gives back the array that
    [JSON.stringify] wrote, and the state holds fewer than two items or no
    item's [createdAt] faults when converted to a number, a fresh page
    booted over that storage loads the same filter and a rearrangement of
    the same items; where every [createdAt] converts to a number the
    loaded items are ordered by that number descending, and are the saved
    state itself when the saved items already were. *)
Theorem save_then_load (newState : state) (w : world) :
  Forall (fun t => shaped t = true) (todos newState) ->
  valid_filter (currentFilter newState) = true ->
  storage_accepts (disk w) STORAGE_KEY (JSON_stringify (todos newState))
  = true ->
  storage_accepts
    ((STORAGE_KEY, JSON_stringify (todos newState)) :: disk w)
    FILTER_KEY (currentFilter newState) = true ->
  JSON_stringify (todos newState) <> [] ->
  JSON_parse (JSON_stringify (todos newState))
  = Some (VArr (List.map VObj (todos newState))) ->
  (List.length (todos newState) < 2)%nat
  \/ Forall faultless (todos newState) ->
  exists w',
    load (boot (disk (saved newState w))) = (Normal tt, w')
    /\ currentFilter (st w') = currentFilter newState
    /\ Permutation (todos (st w')) (todos newState)
    /\ (Forall converts (todos newState) ->
        StronglySorted larger_or_same (todos (st w'))
        /\ (StronglySorted larger_or_same (todos newState) ->
            st w' = newState)).
Proof.
  intros Hs Hf A1 A2 Hne P NF.
  set (text := JSON_stringify (todos newState)) in *.
  assert (D : disk (saved newState w)
              = (FILTER_KEY, currentFilter newState)
                  :: (STORAGE_KEY, text) :: disk w).
  { unfold saved, save, bind, try_catch, set_state, setItem, ret; cbn.
    fold text; rewrite A1; cbn. rewrite A2; reflexivity. }
  assert (L : lookup STORAGE_KEY (disk (boot (disk (saved newState w))))
              = Some text).
  { cbn [disk boot]; rewrite D; cbn [lookup].
    change (str_eqb FILTER_KEY STORAGE_KEY) with false.
    rewrite str_eqb_refl; reflexivity. }
  assert (F : adopted_filter (boot (disk (saved newState w)))
              = currentFilter newState).
  { unfold adopted_filter; cbn [disk boot]; rewrite D; cbn [lookup].
    rewrite str_eqb_refl, Hf; reflexivity. }
  destruct (sort_returns by_createdAt engine_order (todos newState))
    as [sorted S].
  { destruct NF as [NF|NF]; [left; exact NF | right].
    rewrite Forall_forall in NF; intros a b Ha Hb.
    apply by_createdAt_faultless; auto. }
  pose proof (sort_perm _ _ engine_order_perm _ _ S) as Perm.
  exists (loaded (boot (disk (saved newState w)))); rewrite load_eq.
  rewrite <- (survivors_of_shaped _ Hs) in S.
  rewrite (load_array _ text _ sorted L Hne P S), F.
  rewrite (survivors_of_shaped _ Hs) in S.
  cbn [todos currentFilter].
  split; [reflexivity|]. split; [reflexivity|]. split; [exact Perm|].
  intros C.
  destruct (sort_keyed by_createdAt engine_order converts createdAt_number
              by_createdAt_converts (todos newState) C)
    as (r & E & _ & Sr & _ & Same).
  rewrite S in E; injection E as <-.
  split; [exact Sr|].
  intros N; rewrite (Same N).
  destruct newState; reflexivity.
Qed.


(** ** Newest first *)

Lemma createdAt_key_set_other (k : jsstring) (v : value) (t : obj) :
  k_createdAt <> k ->
  createdAt_key (prop_set k v t) = createdAt_key t.
Proof.
  intros Hk; unfold createdAt_key; rewrite prop_get_set_other; auto.
Qed.

Lemma sorted_map_same_key (f : obj -> obj) (l : list obj) :
  (forall t, key_of (f t) = key_of t) ->
  StronglySorted newer_or_same l -> StronglySorted newer_or_same (List.map f l).
Proof.
  intros Hf; induction 1 as [|x l Sl IH Hx]; cbn; constructor; [exact IH|].
  rewrite Forall_forall in *; intros y Hy.
  apply in_map_iff in Hy as (z & <- & Hz).
  unfold newer_or_same; rewrite !Hf; apply (Hx z Hz).
Qed.

Lemma sorted_filter (p : obj -> bool) (l : list obj) :
  StronglySorted newer_or_same l ->
  StronglySorted newer_or_same (List.filter p l).
Proof.
  induction 1 as [|x l Sl IH Hx]; cbn; [constructor|].
  destruct (p x); [|exact IH].
  constructor; [exact IH|].
  rewrite Forall_forall in *; intros y Hy.
  apply filter_In in Hy as [Hy _]; auto.
Qed.

Lemma sorted_newest_first (l : list obj) :
  Forall dated l -> StronglySorted newer_or_same l -> newest_first l.
Proof.
  unfold newest_first; intros D S.
  induction S as [|x l Sl IH Hx]; [constructor|].
  inversion D as [|? ? Dx Dl]; subst.
  constructor; [apply IH; exact Dl|].
  destruct l as [|y l]; constructor.
  inversion Dl as [|? ? Dy _]; subst. inversion Hx as [|? ? Hxy _]; subst.
  rewrite (not_after_key x y Dx Dy). apply Z.leb_le; exact Hxy.
Qed.

(** X17. Prepending keeps the collection sorted as long as the clock does not
    run backwards: if every item's [createdAt] is a number (or absent) and
    the items are newest first, they still are after any mutation, provided
    the clock reading handed to [addTodo] is not behind any item held. *)
Theorem newest_first_kept (c : call) (w : world) :
  c <> Load ->
  Forall dated (todos (st w)) ->
  StronglySorted newer_or_same (todos (st w)) ->
  clock_not_behind c (st w) ->
  Forall dated (todos (st (step c w)))
  /\ StronglySorted newer_or_same (todos (st (step c w)))
  /\ newest_first (todos (st (step c w))).
Proof.
  intros Hc D S K.
  assert (G : Forall dated (todos (st (step c w)))
              /\ StronglySorted newer_or_same (todos (st (step c w))));
    [|destruct G; auto using sorted_newest_first].
  unfold step.
  destruct c; try congruence; unfold run, bind;
    rewrite ?addTodo_eq, ?toggleTodo_eq, ?deleteTodo_eq,
      ?editTodo_eq, ?setFilter_eq, ?clearCompleted_eq;
    unfold get_state, ret; cbn [fst snd]; auto.
  - destruct (title_refused title); cbn; [auto|].
    rewrite saved_st; cbn [todos added]; split.
    + constructor; [discriminate | exact D].
    + constructor; [exact S|].
      rewrite Forall_forall; intros t Ht; apply (K t Ht).
  - destruct (findIndex _ _); cbn; [|auto].
    rewrite saved_st; cbn [todos].
    assert (E : forall t,
              createdAt_key
                (if has_id id t
                 then prop_set k_completed
                        (VBool (negb (completed_flag t))) t
                 else t) = createdAt_key t).
    { intros t; destruct (has_id id t); [|reflexivity].
      apply createdAt_key_set_other; intros E; vm_compute in E; discriminate. }
    split.
    + apply Forall_map_same; [|exact D].
      intros t; unfold dated; rewrite E; auto.
    + apply sorted_map_same_key; [|exact S].
      intros t; unfold key_of; rewrite E; reflexivity.
  - destruct (findIndex _ _); cbn; [|auto].
    rewrite saved_st; cbn [todos]; split;
      [apply Forall_filter; exact D | apply sorted_filter; exact S].
  - destruct (title_refused newTitle); cbn; [auto|].
    destruct (findIndex _ _); cbn; [|auto].
    rewrite saved_st; cbn [todos].
    assert (E : forall t,
              createdAt_key
                (if has_id id t
                 then prop_set k_title (VStr (trimTitle newTitle)) t
                 else t) = createdAt_key t).
    { intros t; destruct (has_id id t); [|reflexivity].
      apply createdAt_key_set_other; intros E; vm_compute in E; discriminate. }
    split.
    + apply Forall_map_same; [|exact D].
      intros t; unfold dated; rewrite E; auto.
    + apply sorted_map_same_key; [|exact S].
      intros t; unfold key_of; rewrite E; reflexivity.
  - destruct filterType; cbn; auto.
    destruct (valid_filter s); cbn; [|auto].
    rewrite saved_st; cbn; auto.
  - cbn; rewrite saved_st; cbn [todos]; split;
      [apply Forall_filter; exact D | apply sorted_filter; exact S].
Qed.


(** ** The actions *)

(** X18. Every action makes exactly the model call of its name.  An action
    whose model call is rejected leaves the page as it was and does not
    render; any other action renders exactly once; [actions.clearCompleted]
    always renders. *)
Theorem action_renders_when_accepted (i : intent) (p : page) :
  model_world (act i p) = step (call_of i) (model_world p)
  /\ (fst (run (call_of i) (model_world p)) = Normal Rejected ->
      act i p = p)
  /\ (fst (run (call_of i) (model_world p)) <> Normal Rejected ->
      renders (act i p) = S (renders p))
  /\ (i = Clear -> renders (act i p) = S (renders p)).
Proof.
  destruct p as [w n].
  destruct i; unfold act, actions.addTodo, actions.toggleTodo,
    actions.deleteTodo, actions.editTodo, actions.setFilter,
    actions.clearCompleted, actions.dispatch, step, call_of, run, bind;
    cbn [model_world renders];
    rewrite ?addTodo_eq, ?toggleTodo_eq, ?deleteTodo_eq,
      ?editTodo_eq, ?setFilter_eq, ?clearCompleted_eq;
    unfold get_state, ret.
  - destruct (title_refused title) eqn:R; cbn;
      repeat split; try congruence; discriminate.
  - destruct (findIndex _ _); cbn;
      repeat split; try congruence; discriminate.
  - destruct (findIndex _ _); cbn;
      repeat split; try congruence; discriminate.
  - destruct (title_refused newTitle); cbn;
      [repeat split; try congruence; discriminate|].
    destruct (findIndex _ _); cbn;
      repeat split; try congruence; discriminate.
  - destruct filterType; cbn;
      try (repeat split; try congruence; discriminate).
    destruct (valid_filter s); cbn;
      repeat split; try congruence; discriminate.
  - cbn; repeat split; try congruence; discriminate.
Qed.

(** X19. [actions.addTodo] tells the form whether the todo went in: it returns
    [true], having rendered once, when the trimmed title is non-empty and at
    most 500 code units long; otherwise, a title that is not a string
    included, it returns [false] and the page is as it was. *)
Theorem actions_addTodo_result (uuid : jsstring) (now : Z) (title : value)
    (p : page) :
  (trimTitle title <> [] /\ (List.length (trimTitle title) <= 500)%nat ->
   exists p',
     actions.addTodo uuid now title p = (Normal true, p')
     /\ renders p' = S (renders p)
     /\ exists t, todos (st (model_world p'))
                  = t :: todos (st (model_world p)))
  /\ (trimTitle title = [] \/ (500 < List.length (trimTitle title))%nat ->
      actions.addTodo uuid now title p = (Normal false, p)).
Proof.
  destruct p as [w n]; unfold actions.addTodo, actions.dispatch;
    cbn [model_world renders]; rewrite addTodo_eq; split.
  - intros H; apply title_refused_false in H; rewrite H.
    eexists; split; [reflexivity|]. cbn; split; [reflexivity|].
    rewrite saved_st; eexists; reflexivity.
  - intros H; apply title_refused_true in H; rewrite H; reflexivity.
Qed.


(** ** Memory and storage together *)

(** X20. Over a storage that takes every write, any call that returns a state
    object leaves that state in memory and, in storage, the text of its
    todos and its filter: after every accepted call memory and storage hold
    the same state. *)
Theorem accepted_call_is_stored (c : call) (s : state) (w w' : world) :
  (forall d k text, storage_accepts d k text = true) ->
  run c w = (Normal (NewState s), w') ->
  st w' = s
  /\ lookup STORAGE_KEY (disk w') = Some (JSON_stringify (todos s))
  /\ lookup FILTER_KEY (disk w') = Some (currentFilter s).
Proof.
  intros A R.
  assert (E : w' = saved s w).
  { revert R; destruct c; unfold run, bind;
      rewrite ?load_eq, ?addTodo_eq, ?toggleTodo_eq, ?deleteTodo_eq,
        ?editTodo_eq, ?setFilter_eq, ?clearCompleted_eq;
      unfold get_state, ret; cbn [fst snd]; try discriminate.
    - destruct (title_refused title); cbn; intros H; inversion H; reflexivity.
    - destruct (findIndex _ _); cbn; intros H; inversion H; reflexivity.
    - destruct (findIndex _ _); cbn; intros H; inversion H; reflexivity.
    - destruct (title_refused newTitle); cbn; [discriminate|].
      destruct (findIndex _ _); cbn; intros H; inversion H; reflexivity.
    - destruct filterType; cbn; try discriminate.
      destruct (valid_filter s0); cbn; intros H; inversion H; reflexivity.
    - cbn; intros H; inversion H; reflexivity. }
  subst w'; split; [apply saved_st|].
  unfold saved, save, bind, try_catch, set_state, setItem, ret; cbn.
  rewrite !A; cbn. rewrite !str_eqb_refl.
  change (str_eqb FILTER_KEY STORAGE_KEY) with false.
  split; reflexivity.
Qed.

(** ** Loading again *)

Lemma adopted_filter_again (w w' : world) :
  disk w' = disk w ->
  currentFilter (st w') = adopted_filter w ->
  adopted_filter w' = adopted_filter w.
Proof.
  unfold adopted_filter; intros -> E.
  destruct (lookup FILTER_KEY (disk w)) as [f|]; [|exact E].
  destruct (valid_filter f); [reflexivity | exact E].
Qed.

(** X21. A second [load] right after a [load] finds the same stored content
    and leaves the state in memory exactly as the first one left it. *)
Theorem load_twice (w : world) :
  exists w1 w2,
    load w = (Normal tt, w1)
    /\ load w1 = (Normal tt, w2)
    /\ disk w2 = disk w
    /\ st w2 = st w1.
Proof.
  exists (loaded w), (loaded (loaded w)); rewrite !load_eq.
  split; [reflexivity|]. split; [reflexivity|].
  pose proof (loaded_disk w) as D.
  split; [rewrite loaded_disk; exact D|].
  destruct (lookup STORAGE_KEY (disk w)) as [[|c text]|] eqn:L.
  - assert (E : st (loaded w)
                = {| todos := todos (st w);
                     currentFilter := adopted_filter w |})
      by (apply load_absent; auto).
    rewrite (load_absent (loaded w)) by (rewrite D; auto).
    rewrite (adopted_filter_again w (loaded w) D) by (rewrite E; reflexivity).
    rewrite E; reflexivity.
  - destruct (JSON_parse (c :: text)) as [v|] eqn:P.
    + assert (A : (exists elems, v = VArr elems)
                  \/ (forall elems, v <> VArr elems)).
      { destruct v; try (right; discriminate). left; eauto. }
      destruct A as [[elems ->]|A].
      * destruct (sort by_createdAt engine_order (survivors elems))
          as [sorted|e] eqn:S.
        -- assert (E : st (loaded w)
                       = {| todos := sorted;
                            currentFilter := adopted_filter w |})
             by (apply (load_array w _ elems sorted L);
                 [discriminate | exact P | exact S]).
           rewrite (load_array (loaded w) (c :: text) elems sorted)
             by (rewrite ?D; (exact L || discriminate || exact P || exact S)).
           rewrite (adopted_filter_again w (loaded w) D)
             by (rewrite E; reflexivity).
           rewrite E; reflexivity.
        -- rewrite (load_array_throws (loaded w) (c :: text) elems e)
             by (rewrite ?D; (exact L || discriminate || exact P || exact S)).
           rewrite (load_array_throws w (c :: text) elems e)
             by (exact L || discriminate || exact P || exact S).
           reflexivity.
      * assert (E : st (loaded w)
                    = {| todos := todos (st w);
                         currentFilter := adopted_filter w |})
          by (apply (load_not_array w _ v L);
              [discriminate | exact P | exact A]).
        rewrite (load_not_array (loaded w) (c :: text) v)
          by (rewrite ?D; (exact L || discriminate || exact P || exact A)).
        rewrite (adopted_filter_again w (loaded w) D)
          by (rewrite E; reflexivity).
        rewrite E; reflexivity.
    + rewrite (load_unparseable (loaded w) (c :: text))
        by (rewrite ?D; (exact L || discriminate || exact P)).
      rewrite (load_unparseable w (c :: text))
        by (exact L || discriminate || exact P).
      reflexivity.
  - assert (E : st (loaded w)
                = {| todos := todos (st w);
                     currentFilter := adopted_filter w |})
      by (apply load_absent; auto).
    rewrite (load_absent (loaded w)) by (rewrite D; auto).
    rewrite (adopted_filter_again w (loaded w) D) by (rewrite E; reflexivity).
    rewrite E; reflexivity.
Qed.

End Further.

(** * Instances of the further properties *)

Lemma reachable_shape_ok_witness :
  @reachable blank_title_host
    (@step blank_title_host Load (boot blank_title_stored))
  /\ (forall t,
        In t (todos (st (@step blank_title_host Load
                           (boot blank_title_stored)))) ->
        exists id title,
          prop_get t k_id = VStr id /\ prop_get t k_title = VStr title).
Proof.
  assert (R : @reachable blank_title_host
                (@step blank_title_host Load (boot blank_title_stored)))
    by (apply reach_step, reach_boot).
  split; [exact R|].
  exact (proj1 (@reachable_shape_ok blank_title_host _ R)).
Defined.

Lemma ids_stay_distinct_witness :
  AddTodo (lit "c") 3000 (padded_title 3) <> Load
  /\ NoDup (ids (st two_item_world))
  /\ brings_fresh_id (AddTodo (lit "c") 3000 (padded_title 3))
       (st two_item_world)
  /\ NoDup (ids (st (@step plain_host
                       (AddTodo (lit "c") 3000 (padded_title 3))
                       two_item_world))).
Proof.
  assert (H1 : AddTodo (lit "c") 3000 (padded_title 3) <> Load)
    by discriminate.
  assert (H2 : NoDup (ids (st two_item_world))).
  { vm_compute. repeat constructor; simpl; intuition discriminate. }
  assert (H3 : brings_fresh_id (AddTodo (lit "c") 3000 (padded_title 3))
                 (st two_item_world)).
  { vm_compute. intuition discriminate. }
  repeat (split; [assumption|]).
  exact (@ids_stay_distinct plain_host _ _ H1 H2 H3).
Defined.

Lemma delete_postcondition_witness :
  (exists t, In t (todos (st two_item_world)) /\ has_id (lit "a") t = true)
  /\ exists newState w',
       @deleteTodo plain_host (lit "a") two_item_world
       = (Normal (Some newState), w')
       /\ @deleteTodo plain_host (lit "a") w' = (Normal None, w')
       /\ todos newState = [ item "b" "Walk dog" false 2000 ].
Proof.
  assert (Hid : exists t, In t (todos (st two_item_world))
                          /\ has_id (lit "a") t = true).
  { exists (item "a" "Buy milk" true 1000); split;
      [right; left; reflexivity | vm_compute; reflexivity]. }
  split; [exact Hid|].
  destruct (@delete_postcondition plain_host (lit "a") two_item_world Hid)
    as (ns & w' & E & _ & _ & _ & E2 & _ & T).
  exists ns, w'; split; [exact E|]. split; [exact E2|].
  rewrite T; vm_compute; reflexivity.
Defined.

Lemma toggle_postcondition_witness :
  (exists t, In t (todos (st two_item_world)) /\ has_id (lit "b") t = true)
  /\ exists newState w',
       @toggleTodo plain_host (lit "b") two_item_world
       = (Normal (Some newState), w')
       /\ List.length (todos newState) = 2%nat.
Proof.
  assert (Hid : exists t, In t (todos (st two_item_world))
                          /\ has_id (lit "b") t = true).
  { exists (item "b" "Walk dog" false 2000); split;
      [left; reflexivity | vm_compute; reflexivity]. }
  split; [exact Hid|].
  destruct (@toggle_postcondition plain_host (lit "b") two_item_world Hid)
    as (ns & w' & E & _ & _ & Len & _).
  exists ns, w'; split; [exact E | exact Len].
Defined.

Lemma edit_postcondition_witness :
  trimTitle (padded_title 3) <> []
  /\ (List.length (trimTitle (padded_title 3)) <= 500)%nat
  /\ (exists t, In t (todos (st two_item_world)) /\ has_id (lit "b") t = true)
  /\ exists newState w',
       @editTodo plain_host (lit "b") (padded_title 3) two_item_world
       = (Normal (Some newState), w')
       /\ List.length (todos newState) = 2%nat.
Proof.
  assert (H1 : trimTitle (padded_title 3) <> [])
    by (vm_compute; discriminate).
  assert (H2 : (List.length (trimTitle (padded_title 3)) <= 500)%nat)
    by (vm_compute; lia).
  assert (Hid : exists t, In t (todos (st two_item_world))
                          /\ has_id (lit "b") t = true).
  { exists (item "b" "Walk dog" false 2000); split;
      [left; reflexivity | vm_compute; reflexivity]. }
  repeat (split; [assumption|]).
  destruct (@edit_postcondition plain_host (lit "b") (padded_title 3)
              two_item_world H1 H2 Hid)
    as (ns & w' & E & _ & _ & Len & _).
  exists ns, w'; split; [exact E | exact Len].
Defined.

Lemma added_item_in_view_witness :
  trimTitle (padded_title 3) <> []
  /\ (List.length (trimTitle (padded_title 3)) <= 500)%nat
  /\ currentFilter (st two_item_world) = f_completed
  /\ exists newState w',
       @addTodo plain_host (lit "c") 3000 (padded_title 3) two_item_world
       = (Normal (Some newState), w')
       /\ getFilteredTodos newState = getFilteredTodos (st two_item_world).
Proof.
  assert (H1 : trimTitle (padded_title 3) <> [])
    by (vm_compute; discriminate).
  assert (H2 : (List.length (trimTitle (padded_title 3)) <= 500)%nat)
    by (vm_compute; lia).
  assert (H3 : currentFilter (st two_item_world) = f_completed)
    by reflexivity.
  repeat (split; [assumption|]).
  destruct (@added_item_in_view plain_host (lit "c") 3000 (padded_title 3)
              two_item_world H1 H2)
    as (ns & w' & t & E & _ & V & _).
  exists ns, w'; split; [exact E | exact (V H3)].
Defined.

Lemma save_persists_both_witness :
  @storage_accepts plain_host (disk one_item_world) STORAGE_KEY
    (@JSON_stringify plain_host (todos one_item_done)) = true
  /\ @storage_accepts plain_host
       ((STORAGE_KEY, @JSON_stringify plain_host (todos one_item_done))
          :: disk one_item_world)
       FILTER_KEY (currentFilter one_item_done) = true
  /\ lookup FILTER_KEY (disk (@saved plain_host one_item_done one_item_world))
     = Some f_all.
Proof.
  split; [reflexivity|]. split; [reflexivity|].
  exact (proj1 (proj2 (@save_persists_both plain_host one_item_done
                         one_item_world eq_refl eq_refl))).
Defined.

Lemma save_stops_at_first_refusal_witness :
  @storage_accepts full_host (disk one_item_world) STORAGE_KEY
    (@JSON_stringify full_host (todos one_item_done)) = false
  /\ st (@saved full_host one_item_done one_item_world) = one_item_done
  /\ disk (@saved full_host one_item_done one_item_world)
     = disk one_item_world.
Proof.
  split; [reflexivity|].
  destruct (@save_stops_at_first_refusal full_host one_item_done
              one_item_world eq_refl) as (S & D & _).
  split; [exact S | exact D].
Defined.

Lemma save_can_store_todos_alone_witness :
  @storage_accepts todos_only_host (disk one_item_world) STORAGE_KEY
    (@JSON_stringify todos_only_host (todos one_item_done)) = true
  /\ @storage_accepts todos_only_host
       ((STORAGE_KEY, @JSON_stringify todos_only_host (todos one_item_done))
          :: disk one_item_world)
       FILTER_KEY (currentFilter one_item_done) = false
  /\ lookup FILTER_KEY
       (disk (@saved todos_only_host one_item_done one_item_world))
     = lookup FILTER_KEY (disk one_item_world).
Proof.
  assert (A1 : @storage_accepts todos_only_host (disk one_item_world)
                 STORAGE_KEY
                 (@JSON_stringify todos_only_host (todos one_item_done))
               = true) by (vm_compute; reflexivity).
  assert (A2 : @storage_accepts todos_only_host
                 ((STORAGE_KEY,
                   @JSON_stringify todos_only_host (todos one_item_done))
                    :: disk one_item_world)
                 FILTER_KEY (currentFilter one_item_done) = false)
    by (vm_compute; reflexivity).
  split; [exact A1|]. split; [exact A2|].
  exact (proj2 (proj2 (@save_can_store_todos_alone todos_only_host
                         one_item_done one_item_world A1 A2))).
Defined.

Lemma load_only_reads_witness :
  reads_only getItem_denied
  /\ read_throws getItem_denied two_item_world
  /\ exists w',
       @load_from plain_host getItem_denied two_item_world = (Normal tt, w')
       /\ disk w' = disk two_item_world
       /\ st w' = initial_state
       /\ trace w' = EvGetItem STORAGE_KEY :: trace two_item_world.
Proof.
  assert (R : reads_only getItem_denied) by (intros k w; reflexivity).
  assert (T : read_throws getItem_denied two_item_world)
    by (exists SecurityError; reflexivity).
  split; [exact R|]. split; [exact T|].
  destruct (@load_only_reads plain_host getItem_denied two_item_world R)
    as (w' & E & D & _ & Th & _).
  destruct (Th T) as [S Tr].
  exists w'; repeat split; assumption.
Defined.

Lemma load_passes_over_non_array_witness :
  (exists text v,
     lookup STORAGE_KEY (disk (boot object_stored)) = Some text
     /\ @JSON_parse object_host text = Some v
     /\ forall elems, v <> VArr elems)
  /\ exists w',
       @load object_host (boot object_stored) = (Normal tt, w')
       /\ todos (st w') = []
       /\ currentFilter (st w') = f_active.
Proof.
  assert (H : exists text v,
            lookup STORAGE_KEY (disk (boot object_stored)) = Some text
            /\ @JSON_parse object_host text = Some v
            /\ forall elems, v <> VArr elems).
  { exists (lit "{}"), (VObj []); split; [vm_compute; reflexivity|].
    split; [vm_compute; reflexivity | discriminate]. }
  split; [exact H|].
  destruct (@load_passes_over_non_array object_host (boot object_stored)
              (or_intror (or_intror H))) as (w' & E & T & F).
  exists w'; split; [exact E|]. split; [exact T|].
  rewrite F; vm_compute; reflexivity.
Defined.

Lemma load_keeps_ties_in_order_witness :
  lookup STORAGE_KEY (disk tie_world) = Some tie_text
  /\ tie_text <> []
  /\ @JSON_parse tie_host tie_text = Some (VArr tie_records)
  /\ Forall dated (survivors tie_records)
  /\ exists w',
       @load tie_host tie_world = (Normal tt, w')
       /\ with_key 1000 (todos (st w'))
          = [ item "a" "First" false 1000; item "c" "Second" false 1000 ].
Proof.
  assert (L : lookup STORAGE_KEY (disk tie_world) = Some tie_text)
    by (vm_compute; reflexivity).
  assert (N : tie_text <> []) by (vm_compute; discriminate).
  assert (P : @JSON_parse tie_host tie_text = Some (VArr tie_records))
    by (vm_compute; reflexivity).
  assert (D : Forall dated (survivors tie_records))
    by (repeat constructor; vm_compute; discriminate).
  repeat (split; [assumption|]).
  destruct (@load_keeps_ties_in_order tie_host tie_world tie_text
              tie_records 1000 L N P D) as (w' & E & K).
  exists w'; split; [exact E|].
  rewrite K; vm_compute; reflexivity.
Defined.

Lemma save_then_load_witness :
  Forall (fun t => shaped t = true) (todos three_state)
  /\ valid_filter (currentFilter three_state) = true
  /\ @JSON_stringify three_round_host (todos three_state) <> []
  /\ @JSON_parse three_round_host
       (@JSON_stringify three_round_host (todos three_state))
     = Some (VArr (List.map VObj (todos three_state)))
  /\ ((List.length (todos three_state) < 2)%nat
      \/ Forall (@faultless three_round_host) (todos three_state))
  /\ Forall (@converts three_round_host) (todos three_state)
  /\ exists w',
       @load three_round_host
         (boot (disk (@saved three_round_host three_state one_item_world)))
       = (Normal tt, w')
       /\ currentFilter (st w') = f_active
       /\ Permutation (todos (st w')) (todos three_state)
       /\ StronglySorted (@larger_or_same three_round_host) (todos (st w')).
Proof.
  assert (H1 : Forall (fun t => shaped t = true) (todos three_state))
    by (repeat constructor).
  assert (H2 : valid_filter (currentFilter three_state) = true)
    by reflexivity.
  assert (H3 : @JSON_stringify three_round_host (todos three_state) <> [])
    by (vm_compute; discriminate).
  assert (H4 : @JSON_parse three_round_host
                 (@JSON_stringify three_round_host (todos three_state))
               = Some (VArr (List.map VObj (todos three_state))))
    by (vm_compute; reflexivity).
  assert (H5 : (List.length (todos three_state) < 2)%nat
               \/ Forall (@faultless three_round_host) (todos three_state)).
  { right; repeat constructor; intros e H; vm_compute in H; discriminate. }
  assert (H6 : Forall (@converts three_round_host) (todos three_state)).
  { repeat constructor;
      [exists 1000 | exists 2000 | exists 1500]; vm_compute; reflexivity. }
  repeat (split; [assumption|]).
  destruct (@save_then_load three_round_host three_state one_item_world
              H1 H2 eq_refl eq_refl H3 H4 H5) as (w' & E & F & Perm & Srt).
  exists w'; split; [exact E|]. split; [exact F|]. split; [exact Perm|].
  exact (proj1 (Srt H6)).
Defined.

Lemma newest_first_kept_witness :
  AddTodo (lit "c") 3000 (padded_title 3) <> Load
  /\ Forall dated (todos (st two_item_world))
  /\ StronglySorted newer_or_same (todos (st two_item_world))
  /\ clock_not_behind (AddTodo (lit "c") 3000 (padded_title 3))
       (st two_item_world)
  /\ @newest_first plain_host
       (todos (st (@step plain_host
                     (AddTodo (lit "c") 3000 (padded_title 3))
                     two_item_world))).
Proof.
  assert (H1 : AddTodo (lit "c") 3000 (padded_title 3) <> Load)
    by discriminate.
  assert (H2 : Forall dated (todos (st two_item_world)))
    by (repeat constructor; vm_compute; discriminate).
  assert (H3 : StronglySorted newer_or_same (todos (st two_item_world))).
  { repeat constructor. vm_compute; discriminate. }
  assert (H4 : clock_not_behind (AddTodo (lit "c") 3000 (padded_title 3))
                 (st two_item_world)).
  { intros t [<-|[<-|[]]]; vm_compute; discriminate. }
  repeat (split; [assumption|]).
  exact (proj2 (proj2 (@newest_first_kept plain_host _ _ H1 H2 H3 H4))).
Defined.

Lemma action_renders_when_accepted_witness :
  fst (@run plain_host (call_of (Toggle (lit "missing")))
         (model_world two_item_page)) = Normal Rejected
  /\ @act plain_host (Toggle (lit "missing")) two_item_page = two_item_page
  /\ fst (@run plain_host (call_of (Toggle (lit "a")))
            (model_world two_item_page)) <> Normal Rejected
  /\ renders (@act plain_host (Toggle (lit "a")) two_item_page) = 1%nat
  /\ renders (@act plain_host Clear two_item_page) = 1%nat.
Proof.
  assert (R : fst (@run plain_host (call_of (Toggle (lit "missing")))
                     (model_world two_item_page)) = Normal Rejected)
    by (vm_compute; reflexivity).
  assert (A : fst (@run plain_host (call_of (Toggle (lit "a")))
                     (model_world two_item_page)) <> Normal Rejected)
    by (vm_compute; discriminate).
  destruct (@action_renders_when_accepted plain_host
              (Toggle (lit "missing")) two_item_page) as (_ & Hr & _).
  destruct (@action_renders_when_accepted plain_host
              (Toggle (lit "a")) two_item_page) as (_ & _ & Ha & _).
  destruct (@action_renders_when_accepted plain_host
              Clear two_item_page) as (_ & _ & _ & Hc).
  split; [exact R|]. split; [exact (Hr R)|].
  split; [exact A|]. split; [exact (Ha A) | exact (Hc eq_refl)].
Defined.

Lemma actions_addTodo_result_witness :
  (trimTitle (padded_title 3) <> []
   /\ (List.length (trimTitle (padded_title 3)) <= 500)%nat)
  /\ (exists p',
        @actions.addTodo plain_host (lit "c") 3000 (padded_title 3)
          two_item_page = (Normal true, p')
        /\ renders p' = 1%nat)
  /\ trimTitle (VNum 42) = []
  /\ @actions.addTodo plain_host (lit "c") 3000 (VNum 42) two_item_page
     = (Normal false, two_item_page).
Proof.
  assert (H1 : trimTitle (padded_title 3) <> []
               /\ (List.length (trimTitle (padded_title 3)) <= 500)%nat)
    by (split; [vm_compute; discriminate | vm_compute; lia]).
  destruct (@actions_addTodo_result plain_host (lit "c") 3000
              (padded_title 3) two_item_page) as [Hy _].
  destruct (@actions_addTodo_result plain_host (lit "c") 3000
              (VNum 42) two_item_page) as [_ Hn].
  destruct (Hy H1) as (p' & E & Rn & _).
  split; [exact H1|]. split; [exists p'; split; assumption|].
  split; [reflexivity | exact (Hn (or_introl eq_refl))].
Defined.

Lemma accepted_call_is_stored_witness :
  (forall d k text, @storage_accepts plain_host d k text = true)
  /\ exists s w',
       @run plain_host (SetFilter (VStr f_active)) two_item_world
       = (Normal (NewState s), w')
       /\ st w' = s
       /\ lookup FILTER_KEY (disk w') = Some f_active.
Proof.
  assert (A : forall d k text, @storage_accepts plain_host d k text = true)
    by reflexivity.
  split; [exact A|].
  eexists _, _; split; [vm_compute; reflexivity|].
  destruct (@accepted_call_is_stored plain_host
              (SetFilter (VStr f_active)) _ two_item_world _ A eq_refl)
    as (S & _ & F).
  split; [exact S | exact F].
Defined.
